(** * install_bindist.py: the distribution installer

    The program is five lines of Python over three library calls:

      os.makedirs(sys.argv[2], exist_ok=True)
      shutil.copy(sys.argv[3], os.path.join(sys.argv[2], sys.argv[4]))
      for f in sys.argv[5:]:
          shutil.copy(os.path.join(sys.argv[1], f), os.path.join(sys.argv[2], f))

    Its behaviour is the behaviour of [os.makedirs], [shutil.copy] and
    [os.path.join] on a file system.  This development embeds

      - the string functions of [posixpath] ([join], [split], [basename]);
      - a POSIX file system: a finite map from canonical paths to entries
        (regular files with mode and data, directories with mode), with
        pathname resolution component by component;
      - the system calls the library functions make ([stat], [mkdir],
        [open] for reading and for writing, [chmod]);
      - [os.makedirs], [shutil.copyfile], [shutil.copymode], [shutil.copy]
        as CPython defines them over those calls;
      - the script itself, in a state and exception monad that also keeps
        the trace of the library calls it makes.

    Scope of the file system model: a POSIX system ([os.path] is
    [posixpath]); one unprivileged user owning every entry, so that access is
    decided by the owner bits; every directory can be searched; no symbolic
    or hard links, no special files; writes never run out of space; the
    process umask leaves the owner bits alone; the interpreter's recursion
    limit is not met. *)

From stdpp Require Import gmap strings list fin_maps.
From Stdlib Require Import Ascii ZArith Lia.

(** ** Strings: the functions of posixpath *)

Definition sep : ascii := "/"%char.

Definition is_sep (c : ascii) : bool := Ascii.eqb c sep.

(** [s.startswith('/')] *)
Definition startswith_sep (s : string) : bool :=
  match s with
  | String c _ => is_sep c
  | EmptyString => false
  end.

(** [s.endswith('/')] *)
Fixpoint endswith_sep (s : string) : bool :=
  match s with
  | EmptyString => false
  | String c EmptyString => is_sep c
  | String _ s' => endswith_sep s'
  end.

Definition str_null (s : string) : bool :=
  match s with EmptyString => true | _ => false end.

(** [s.rfind('/')]: the index of the last separator, or -1. *)
Fixpoint rfind_sep (s : string) : Z :=
  match s with
  | EmptyString => (-1)%Z
  | String c s' =>
      let r := rfind_sep s' in
      if (0 <=? r)%Z then (r + 1)%Z
      else if is_sep c then 0%Z else (-1)%Z
  end.

(** [s[:i]] and [s[i:]] for [0 <= i]. *)
Fixpoint str_take (i : nat) (s : string) : string :=
  match i, s with
  | S i', String c s' => String c (str_take i' s')
  | _, _ => EmptyString
  end.

Fixpoint str_drop (i : nat) (s : string) : string :=
  match i, s with
  | S i', String _ s' => str_drop i' s'
  | _, _ => s
  end.

(** [s == '/' * len(s)] *)
Fixpoint all_sep (s : string) : bool :=
  match s with
  | EmptyString => true
  | String c s' => is_sep c && all_sep s'
  end.

(** [s.rstrip('/')] *)
Fixpoint rstrip_sep (s : string) : string :=
  match s with
  | EmptyString => EmptyString
  | String c s' =>
      let r := rstrip_sep s' in
      if str_null r && is_sep c then EmptyString else String c r
  end.

Module posixpath.

(** [os.path.join(a, b)]:
      if b.startswith(sep) or not path: path = b
      elif path.endswith(sep): path += b
      else: path += sep + b *)
Definition join (a b : string) : string :=
  if startswith_sep b || str_null a then b
  else if endswith_sep a then a +:+ b
  else a +:+ String sep b.

(** [os.path.split(p)]:
      i = p.rfind(sep) + 1
      head, tail = p[:i], p[i:]
      if head and head != sep*len(head): head = head.rstrip(sep) *)
Definition split (p : string) : string * string :=
  let i := Z.to_nat (rfind_sep p + 1) in
  let head := str_take i p in
  let tail := str_drop i p in
  (if negb (str_null head) && negb (all_sep head) then rstrip_sep head
   else head, tail).

(** [os.path.basename(p)]: [p[p.rfind(sep) + 1:]] *)
Definition basename (p : string) : string :=
  str_drop (Z.to_nat (rfind_sep p + 1)) p.

Definition curdir : string := ".".
Definition pardir : string := "..".

End posixpath.

(** The raw components of a pathname: the pieces between separators, empty
    ones included (["a//b/"] has components [a], [], [b], []). *)
Fixpoint components (s : string) : list string :=
  match s with
  | EmptyString => [EmptyString]
  | String c s' =>
      if is_sep c then EmptyString :: components s'
      else match components s' with
           | x :: xs => String c x :: xs
           | [] => [String c EmptyString]
           end
  end.

(** ** The file system *)

(** Permission bits as the invoking user sees them. *)
Record mode := Mode { readable : bool; writable : bool }.

Inductive entry :=
| File (m : mode) (data : string)
| Dir (m : mode).

(** A canonical path: the names from the root down; [[]] is the root. *)
Definition key := list string.

Abbreviation fs := (gmap key entry).

Global Instance mode_eq_dec : EqDecision mode.
Proof. solve_decision. Defined.

Global Instance entry_eq_dec : EqDecision entry.
Proof. solve_decision. Defined.

Definition parent (k : key) : key := removelast k.

Definition child (k : key) (name : string) : key := k ++ [name].

(** Modes given to what [mkdir] and [open(..., 'wb')] create. *)
Definition new_dir_mode : mode := Mode true true.
Definition new_file_mode : mode := Mode true true.

Inductive errno := ENOENT | EEXIST | ENOTDIR | EISDIR | EACCES.

Global Instance errno_eq_dec : EqDecision errno.
Proof. solve_decision. Defined.

(** The outcome of resolving a pathname:
    - [Found k e]: it names the entry [e] at [k];
    - [Missing d m name]: every component but the last name resolves, to the
      directory [d] of mode [m], which has no entry [name];
    - [Fail e]: resolution fails with [e].
    Separators after the last name are left to the system call: each has its
    own rule for them. *)
Inductive resolution :=
| Found (k : key) (e : entry)
| Missing (d : key) (m : mode) (name : string)
| Fail (e : errno).

(** The components that stay in the directory they are resolved in. *)
Definition is_dot (c : string) : bool :=
  bool_decide (c = "") || bool_decide (c = posixpath.curdir).

Fixpoint walk (sigma : fs) (cur : key) (cs : list string) : resolution :=
  match sigma !! cur with
  | None => Fail ENOENT
  | Some e =>
      match cs with
      | [] => Found cur e
      | c :: cs' =>
          match e with
          | File _ _ => if forallb str_null cs then Found cur e else Fail ENOTDIR
          | Dir m =>
              if is_dot c then walk sigma cur cs'
              else if bool_decide (c = posixpath.pardir)
              then walk sigma (parent cur) cs'
              else match sigma !! child cur c with
                   | Some _ => walk sigma (child cur c) cs'
                   | None =>
                       if forallb str_null cs' then Missing cur m c
                       else Fail ENOENT
                   end
          end
      end
  end.

(** ** Exceptions, and the monad the code runs in *)

(** The exceptions the program can end with.  [OSError e p] stands for the
    subclass of [OSError] that CPython picks for [e] ([FileNotFoundError],
    [FileExistsError], [NotADirectoryError], [IsADirectoryError],
    [PermissionError]) with [filename = p]; [SameFileError] is an [OSError]
    too. *)
Inductive exn :=
| IndexError
| RecursionError
| OSError (e : errno) (filename : string)
| SameFileError (src dst : string).

Global Instance exn_eq_dec : EqDecision exn.
Proof. solve_decision. Defined.

Definition is_OSError (e : exn) : bool :=
  match e with
  | OSError _ _ | SameFileError _ _ => true
  | IndexError | RecursionError => false
  end.

Definition is_FileExistsError (e : exn) : bool :=
  match e with
  | OSError EEXIST _ => true
  | _ => false
  end.

Definition is_IsADirectoryError (e : exn) : bool :=
  match e with
  | OSError EISDIR _ => true
  | _ => false
  end.

Inductive outcome (A : Type) :=
| Ok (a : A)
| Raise (e : exn).
Arguments Ok {A} a.
Arguments Raise {A} e.

(** A computation over a state [S] that returns or raises. *)
Definition SE (S A : Type) : Type := S -> S * outcome A.

Definition ret {S A} (a : A) : SE S A := fun s => (s, Ok a).

Definition raise {S A} (e : exn) : SE S A := fun s => (s, Raise e).

Definition bind {S A B} (m : SE S A) (k : A -> SE S B) : SE S B :=
  fun s =>
    match m s with
    | (s', Ok a) => k a s'
    | (s', Raise e) => (s', Raise e)
    end.

(** [try: m  except: h e] *)
Definition try_except {S A} (m : SE S A) (h : exn -> SE S A) : SE S A :=
  fun s =>
    match m s with
    | (s', Ok a) => (s', Ok a)
    | (s', Raise e) => h e s'
    end.

Definition gets {S A} (f : S -> A) : SE S A := fun s => (s, Ok (f s)).

Definition modify {S} (f : S -> S) : SE S unit := fun s => (f s, Ok tt).

Declare Scope se_scope.
Delimit Scope se_scope with se.
Notation "x <- c ;; k" := (bind c (fun x => k))
  (at level 100, c at next level, right associativity) : se_scope.
Notation "c ;;; k" := (bind c (fun _ => k))
  (at level 100, k at level 200, right associativity) : se_scope.
Open Scope se_scope.

Section FileSystem.

(** The working directory of the process. *)
Variable cwd : key.

Definition resolve (sigma : fs) (p : string) : resolution :=
  if str_null p then Fail ENOENT
  else walk sigma (if startswith_sep p then [] else cwd) (components p).

(** Resolution for a call on an existing object: a regular file followed
    by separators is not a directory. *)
Definition resolve_existing (sigma : fs) (p : string) : resolution :=
  match resolve sigma p with
  | Found k (File m data) =>
      if endswith_sep p then Fail ENOTDIR else Found k (File m data)
  | r => r
  end.

(** *** System calls *)

Abbreviation F := (SE fs).

(** [os.stat(p)] *)
Definition sys_stat (p : string) : F entry :=
  fun sigma =>
    match resolve_existing sigma p with
    | Found _ e => (sigma, Ok e)
    | Missing _ _ _ => (sigma, Raise (OSError ENOENT p))
    | Fail e => (sigma, Raise (OSError e p))
    end.

(** [os.path.exists(p)]: [os.stat(p)] does not raise. *)
Definition path_exists (p : string) : F bool :=
  try_except (_ <- sys_stat p ;; ret true) (fun _ => ret false).

(** [os.path.isdir(p)]: [os.stat(p)] does not raise and gives a directory. *)
Definition path_isdir (p : string) : F bool :=
  try_except
    (e <- sys_stat p ;; ret (match e with Dir _ => true | File _ _ => false end))
    (fun _ => ret false).

(** [os.mkdir(p)]: separators after the new name are allowed. *)
Definition sys_mkdir (p : string) : F unit :=
  fun sigma =>
    match resolve sigma p with
    | Found _ _ => (sigma, Raise (OSError EEXIST p))
    | Missing d m name =>
        if writable m then (<[child d name := Dir new_dir_mode]> sigma, Ok tt)
        else (sigma, Raise (OSError EACCES p))
    | Fail e => (sigma, Raise (OSError e p))
    end.

(** [open(p, 'rb')]: the open file, as the key of its entry. *)
Definition open_rb (p : string) : F key :=
  fun sigma =>
    match resolve_existing sigma p with
    | Found k (File m _) =>
        if readable m then (sigma, Ok k)
        else (sigma, Raise (OSError EACCES p))
    | Found _ (Dir _) => (sigma, Raise (OSError EISDIR p))
    | Missing _ _ _ => (sigma, Raise (OSError ENOENT p))
    | Fail e => (sigma, Raise (OSError e p))
    end.

(** [open(p, 'wb')]: creates the file or truncates it.  With separators after
    the last name the call fails with [EISDIR], whatever the name stands
    for. *)
Definition open_wb (p : string) : F key :=
  fun sigma =>
    match resolve sigma p with
    | Found k (File m _) =>
        if endswith_sep p then (sigma, Raise (OSError EISDIR p))
        else if writable m then (<[k := File m ""]> sigma, Ok k)
        else (sigma, Raise (OSError EACCES p))
    | Found _ (Dir _) => (sigma, Raise (OSError EISDIR p))
    | Missing d m name =>
        if endswith_sep p then (sigma, Raise (OSError EISDIR p))
        else if writable m
        then (<[child d name := File new_file_mode ""]> sigma, Ok (child d name))
        else (sigma, Raise (OSError EACCES p))
    | Fail e => (sigma, Raise (OSError e p))
    end.

(** Reading all of an open file. *)
Definition file_read (k : key) : F string :=
  gets (fun sigma =>
    match sigma !! k with
    | Some (File _ data) => data
    | _ => ""
    end).

(** Writing to an open file that was just truncated. *)
Definition file_write (k : key) (data : string) : F unit :=
  modify (fun sigma =>
    match sigma !! k with
    | Some (File m _) => <[k := File m data]> sigma
    | _ => sigma
    end).

Definition entry_mode (e : entry) : mode :=
  match e with File m _ => m | Dir m => m end.

Definition set_mode (m : mode) (e : entry) : entry :=
  match e with File _ data => File m data | Dir _ => Dir m end.

(** [os.chmod(p, m)] *)
Definition sys_chmod (p : string) (m : mode) : F unit :=
  fun sigma =>
    match resolve_existing sigma p with
    | Found k e => (<[k := set_mode m e]> sigma, Ok tt)
    | Missing _ _ _ => (sigma, Raise (OSError ENOENT p))
    | Fail e => (sigma, Raise (OSError e p))
    end.

(** [os.path.samefile(a, b)]: both are stat'ed, [a] first; equal device and
    inode is equal key. *)
Definition path_samefile (a b : string) : F bool :=
  fun sigma =>
    match resolve_existing sigma a with
    | Found ka _ =>
        match resolve_existing sigma b with
        | Found kb _ => (sigma, Ok (bool_decide (ka = kb)))
        | Missing _ _ _ => (sigma, Raise (OSError ENOENT b))
        | Fail e => (sigma, Raise (OSError e b))
        end
    | Missing _ _ _ => (sigma, Raise (OSError ENOENT a))
    | Fail e => (sigma, Raise (OSError e a))
    end.

(** *** os.makedirs *)

(** [def makedirs(name, mode=0o777, exist_ok=False)]:

      head, tail = path.split(name)
      if not tail:
          head, tail = path.split(head)
      if head and tail and not path.exists(head):
          try:
              makedirs(head, exist_ok=exist_ok)
          except FileExistsError:
              pass
          if tail == curdir:
              return
      try:
          mkdir(name, mode)
      except OSError:
          if not exist_ok or not path.isdir(name):
              raise

    The recursion is on [head], which is shorter than [name]; [fuel] bounds
    its depth. *)
Definition makedirs_mkdir (name : string) (exist_ok : bool) : F unit :=
  try_except (sys_mkdir name)
    (fun e =>
       if is_OSError e then
         d <- path_isdir name ;;
         if negb exist_ok || negb d then raise e else ret tt
       else raise e).

Definition makedirs_split (name : string) : string * string :=
  let '(head, tail) := posixpath.split name in
  if str_null tail then posixpath.split head else (head, tail).

Fixpoint makedirs_rec (fuel : nat) (name : string) (exist_ok : bool) : F unit :=
  match fuel with
  | O => raise RecursionError
  | S fuel' =>
      let '(head, tail) := makedirs_split name in
      if negb (str_null head) && negb (str_null tail) then
        ex <- path_exists head ;;
        if negb ex then
          try_except (makedirs_rec fuel' head exist_ok)
            (fun e => if is_FileExistsError e then ret tt else raise e) ;;;
          if bool_decide (tail = posixpath.curdir) then ret tt
          else makedirs_mkdir name exist_ok
        else makedirs_mkdir name exist_ok
      else makedirs_mkdir name exist_ok
  end.

Definition makedirs (name : string) (exist_ok : bool) : F unit :=
  makedirs_rec (S (String.length name)) name exist_ok.

(** *** shutil *)

(** [shutil._samefile(src, dst)]:
      try: return os.path.samefile(src, dst)
      except OSError: return False *)
Definition shutil_samefile (src dst : string) : F bool :=
  try_except (path_samefile src dst)
    (fun e => if is_OSError e then ret false else raise e).

(** [shutil.copyfile(src, dst)]:

      if _samefile(src, dst):
          raise SameFileError(...)
      ...
      with open(src, 'rb') as fsrc:
          try:
              with open(dst, 'wb') as fdst:
                  copyfileobj(fsrc, fdst)
          except IsADirectoryError as e:
              if not os.path.exists(dst):
                  raise FileNotFoundError(f'Directory does not exist: {dst}') from e
              else:
                  raise
      return dst *)
Definition copyfile (src dst : string) : F string :=
  same <- shutil_samefile src dst ;;
  if same then raise (SameFileError src dst)
  else
    fsrc <- open_rb src ;;
    try_except
      (fdst <- open_wb dst ;;
       data <- file_read fsrc ;;
       file_write fdst data)
      (fun e =>
         if is_IsADirectoryError e then
           ex <- path_exists dst ;;
           if negb ex then raise (OSError ENOENT dst) else raise e
         else raise e) ;;;
    ret dst.

(** [shutil.copymode(src, dst)]:
      st = os.stat(src)
      os.chmod(dst, stat.S_IMODE(st.st_mode)) *)
Definition copymode (src dst : string) : F unit :=
  st <- sys_stat src ;;
  sys_chmod dst (entry_mode st).

(** [shutil.copy(src, dst)]:
      if os.path.isdir(dst):
          dst = os.path.join(dst, os.path.basename(src))
      copyfile(src, dst)
      copymode(src, dst)
      return dst *)
Definition copy (src dst : string) : F string :=
  d <- path_isdir dst ;;
  let dst := if d then posixpath.join dst (posixpath.basename src) else dst in
  copyfile src dst ;;;
  copymode src dst ;;;
  ret dst.

(** ** The program *)

(** The library calls of the script, in the order it makes them. *)
Inductive event :=
| EvMakedirs (name : string)
| EvCopy (src dst : string).

Record state := State { st_fs : fs; st_trace : list event }.

Abbreviation M := (SE state).

(** A library call: recorded in the trace, then run on the file system. *)
Definition call {A} (ev : event) (m : F A) : M A :=
  fun st =>
    let '(sigma, r) := m (st_fs st) in
    (State sigma (st_trace st ++ [ev]), r).

Definition os_makedirs (name : string) (exist_ok : bool) : M unit :=
  call (EvMakedirs name) (makedirs name exist_ok).

Definition shutil_copy (src dst : string) : M string :=
  call (EvCopy src dst) (copy src dst).

(** [sys.argv[i]] *)
Definition argv_get (argv : list string) (i : nat) : M string :=
  match argv !! i with
  | Some a => ret a
  | None => raise IndexError
  end.

(** [for x in l: body] *)
Fixpoint for_each {A} (l : list A) (body : A -> M unit) : M unit :=
  match l with
  | [] => ret tt
  | x :: l' => body x ;;; for_each l' body
  end.

(** The script, statement by statement; the arguments of a call are
    evaluated left to right before the call. *)
Definition main (argv : list string) : M unit :=
  (a2 <- argv_get argv 2 ;;
   os_makedirs a2 true) ;;;
  (a3 <- argv_get argv 3 ;;
   a2 <- argv_get argv 2 ;;
   a4 <- argv_get argv 4 ;;
   shutil_copy a3 (posixpath.join a2 a4)) ;;;
  for_each (drop 5 argv) (fun f =>
    a1 <- argv_get argv 1 ;;
    a2 <- argv_get argv 2 ;;
    shutil_copy (posixpath.join a1 f) (posixpath.join a2 f) ;;;
    ret tt).

(** What the interpreter exits with: 0 when the script runs to its end, 1
    when an exception reaches the top level (its traceback and message go to
    the standard error stream). *)
Definition exit_status {A} (r : outcome A) : Z :=
  match r with
  | Ok _ => 0%Z
  | Raise _ => 1%Z
  end.

(** Running the script on a file system. *)
Definition run (argv : list string) (sigma : fs) : state * outcome unit :=
  main argv (State sigma []).

End FileSystem.

(** ** Notions the statements use *)

(** [s] contains a separator. *)
Fixpoint has_sep (s : string) : bool :=
  match s with
  | EmptyString => false
  | String c s' => is_sep c || has_sep s'
  end.

(** [k] separators. *)
Fixpoint seps (k : nat) : string :=
  match k with
  | O => EmptyString
  | S k' => String sep (seps k')
  end.

(** A plain file name: one component that names an entry of the directory it
    is looked up in. *)
Definition plain_name (s : string) : bool :=
  negb (str_null s) && negb (has_sep s) && negb (is_dot s)
  && negb (bool_decide (s = posixpath.pardir)).


(** [tau] has every entry of [sigma], directories as they are and regular
    files possibly with other mode and data. *)
Definition same_kind (e e' : entry) : Prop :=
  match e with
  | Dir m => e' = Dir m
  | File _ _ => exists m' data', e' = File m' data'
  end.

Definition extends (sigma tau : fs) : Prop :=
  forall k e, sigma !! k = Some e -> exists e', tau !! k = Some e' /\ same_kind e e'.

(** Every directory of [tau] is a directory of [sigma], with its mode. *)
Definition dirs_within (tau sigma : fs) : Prop :=
  forall k m, tau !! k = Some (Dir m) -> sigma !! k = Some (Dir m).

(** The pairs of source and destination the script passes to [shutil.copy],
    in its order. *)
Definition copy_plan (s d m n : string) (extras : list string)
  : list (string * string) :=
  (m, posixpath.join d n)
    :: map (fun f => (posixpath.join s f, posixpath.join d f)) extras.

Definition copy_events (plan : list (string * string)) : list event :=
  map (fun sd => EvCopy sd.1 sd.2) plan.

(** The copies as pairs of source and name in [dest_dir], and the plan they
    stand for. *)
Definition items_of (s m n : string) (extras : list string)
  : list (string * string) :=
  (m, n) :: map (fun f => (posixpath.join s f, f)) extras.

Definition plan_of (d : string) (items : list (string * string))
  : list (string * string) :=
  map (fun sg => (sg.1, posixpath.join d sg.2)) items.




Section Sequences.

Variable cwd : key.

(** [os.path.isdir] and [os.path.exists] as predicates on a file system. *)
Definition is_dir (sigma : fs) (p : string) : bool :=
  match resolve_existing cwd sigma p with
  | Found _ (Dir _) => true
  | _ => false
  end.

Definition exists_path (sigma : fs) (p : string) : bool :=
  match resolve_existing cwd sigma p with
  | Found _ _ => true
  | _ => false
  end.

(** [base] stands for the directory at [d], of mode [m]: it resolves to it,
    or it is the empty string, which [os.path.join] leaves out, and [d] is the
    working directory. *)
Definition base_dir (sigma : fs) (base : string) (d : key) (m : mode) : Prop :=
  (base = "" /\ d = cwd /\ sigma !! cwd = Some (Dir m))
  \/ resolve cwd sigma base = Found d (Dir m).


(** [a] and [b] name one entry. *)
Definition same_file (sigma : fs) (a b : string) : bool :=
  match resolve_existing cwd sigma a, resolve_existing cwd sigma b with
  | Found ka _, Found kb _ => bool_decide (ka = kb)
  | _, _ => false
  end.

(** Where [open(p, 'wb')] writes, or the error it fails with. *)
Definition open_target (sigma : fs) (p : string) : errno + key :=
  match resolve cwd sigma p with
  | Found k (File m _) =>
      if endswith_sep p then inl EISDIR
      else if writable m then inr k else inl EACCES
  | Found _ (Dir _) => inl EISDIR
  | Missing d m n =>
      if endswith_sep p then inl EISDIR
      else if writable m then inr (child d n) else inl EACCES
  | Fail e => inl e
  end.

(** [shutil.copy] in closed form: the destination is taken inside [dst] when
    that is a directory; the copy fails and leaves the file system as it is,
    or the destination becomes a regular file with the mode and data of the
    source. *)
Definition copy_dest (sigma : fs) (src dst : string) : string :=
  if is_dir sigma dst then posixpath.join dst (posixpath.basename src) else dst.

Definition copy_result (sigma : fs) (src dst : string) : fs * outcome string :=
  let dst' := copy_dest sigma src dst in
  if same_file sigma src dst' then (sigma, Raise (SameFileError src dst'))
  else
    match resolve_existing cwd sigma src with
    | Found ks (File ms data) =>
        if readable ms then
          match open_target sigma dst' with
          | inr kd => (<[kd := File ms data]> sigma, Ok dst')
          | inl e =>
              (sigma,
               Raise (OSError
                        (if bool_decide (e = EISDIR)
                            && negb (exists_path sigma dst')
                         then ENOENT else e) dst'))
          end
        else (sigma, Raise (OSError EACCES src))
    | Found _ (Dir _) => (sigma, Raise (OSError EISDIR src))
    | Missing _ _ _ => (sigma, Raise (OSError ENOENT src))
    | Fail e => (sigma, Raise (OSError e src))
    end.

(** The copies of a plan one after the other, stopping at the first that
    raises: what the second statement and the loop of the script do on the
    file system. *)
Fixpoint copy_all (plan : list (string * string)) : SE fs unit :=
  match plan with
  | [] => ret tt
  | sd :: plan' => copy cwd sd.1 sd.2 ;;; copy_all plan'
  end.

(** The same copies as the script makes them, each recorded in the trace. *)
Fixpoint exec_plan (plan : list (string * string)) : SE state unit :=
  match plan with
  | [] => ret tt
  | sd :: plan' => shutil_copy cwd sd.1 sd.2 ;;; exec_plan plan'
  end.

(** The exception of a failed copy names the source or the destination. *)
Definition error_names (e : exn) (src dst : string) : Prop :=
  e = SameFileError src dst
  \/ exists en, e = OSError en src \/ e = OSError en dst.

(** [a] and [b] resolve to one regular file. *)
Definition same_regular_file (sigma : fs) (a b : string) : Prop :=
  exists k, (exists m data, resolve_existing cwd sigma a = Found k (File m data))
            /\ (exists m data, resolve_existing cwd sigma b = Found k (File m data)).




End Sequences.

(** ** A file system to run the script on *)

Definition rw : mode := Mode true true.
Definition ro : mode := Mode true false.

(** The working directory [/home/user], with a source tree [src] in it. *)
Definition home : key := ["home"; "user"].

Definition site : fs :=
  list_to_map
    [ ([], Dir rw);
      (["home"], Dir rw);
      (["home"; "user"], Dir rw);
      (["home"; "user"; "notes"], File rw "notes");
      (["home"; "user"; "src"], Dir rw);
      (["home"; "user"; "src"; "build"], Dir rw);
      (["home"; "user"; "src"; "build"; "app"], File rw "binary");
      (["home"; "user"; "src"; "app"], File rw "script");
      (["home"; "user"; "src"; "LICENSE"], File ro "license");
      (["home"; "user"; "src"; "mainfile.txt"], File rw "main");
      (["home"; "user"; "src"; "README"], File rw "readme") ].

(** The same with a populated [out] beside [src]. *)
Definition site_out : fs :=
  <[ ["home"; "user"; "out"; "keep"] := File rw "kept" ]>
    (<[ ["home"; "user"; "out"; "app"] := File rw "old" ]>
       (<[ ["home"; "user"; "out"] := Dir rw ]> site)).

(** The invocation of the specification: three files installed in [out/]. *)
Definition argv_install : list string :=
  ["install_bindist.py"; "src/"; "out/"; "src/build/app"; "app";
   "mainfile.txt"; "README"].



(** [main_dest_name] is [.]. *)
Definition argv_dot : list string :=
  ["install_bindist.py"; "src"; "out"; "src/build/app"; "."].



(** [source_dir] is [dest_dir]. *)
Definition argv_same : list string :=
  ["install_bindist.py"; "src"; "src"; "src/build/app"; "app2"; "README"].

(** An update of the populated [out]. *)
Definition argv_update : list string :=
  ["install_bindist.py"; "src"; "out"; "src/build/app"; "app"; "README"].

(** The directory [out] of the examples, and what [makedirs] leaves when it
    creates it. *)
Definition out_dir : key := home ++ ["out"].



(** * Properties *)

(** ** Strings *)

#[local] Arguments String.append !s1 s2 /.

Lemma is_sep_true c : is_sep c = true <-> c = sep.
Proof. unfold is_sep. apply Ascii.eqb_eq. Qed.

Lemma is_sep_sep : is_sep sep = true.
Proof. reflexivity. Qed.

Lemma app_nil_r_str s : s +:+ "" = s.
Proof. induction s as [|c s IH]; simpl; [done | by rewrite IH]. Qed.

Lemma app_assoc_str a b c : (a +:+ b) +:+ c = a +:+ (b +:+ c).
Proof. induction a as [|x a IH]; simpl; [done | by rewrite IH]. Qed.

Lemma app_length_str a b :
  String.length (a +:+ b) = String.length a + String.length b.
Proof. induction a as [|x a IH]; simpl; [done | by rewrite IH]. Qed.

Lemma str_null_true s : str_null s = true <-> s = "".
Proof. destruct s; simpl; split; congruence. Qed.

Lemma str_null_false s : str_null s = false <-> s <> "".
Proof. destruct s; simpl; split; congruence. Qed.

Lemma str_null_app a b : str_null (a +:+ b) = str_null a && str_null b.
Proof. by destruct a. Qed.

Lemma components_nonempty s : components s <> [].
Proof.
  induction s as [|c s IH]; simpl; [done |].
  destruct (is_sep c); [done |]. by destruct (components s).
Qed.

Lemma components_app_sep a b :
  components (a +:+ String sep b) = components a ++ components b.
Proof.
  induction a as [|c a IH]; simpl.
  - done.
  - rewrite IH. destruct (is_sep c); [done |].
    pose proof (components_nonempty a) as Hne.
    by destruct (components a).
Qed.

Lemma components_no_sep t : has_sep t = false -> components t = [t].
Proof.
  induction t as [|c t IH]; simpl; [done |].
  intros [Hc Ht]%orb_false_iff. rewrite Hc, (IH Ht). done.
Qed.

Lemma components_seps k : components (seps k) = replicate (S k) "".
Proof. induction k as [|k IH]; simpl; [done | by rewrite IH]. Qed.

Lemma components_app_seps s k :
  components (s +:+ seps k) = components s ++ replicate k "".
Proof.
  destruct k as [|k].
  - change (seps 0) with "". by rewrite app_nil_r_str, app_nil_r.
  - change (seps (S k)) with (String sep (seps k)).
    by rewrite components_app_sep, components_seps.
Qed.

Lemma endswith_sep_app_sep a : endswith_sep (a +:+ String sep "") = true.
Proof.
  induction a as [|c a IH]; simpl; [done |].
  destruct (a +:+ String sep "") eqn:E; [by destruct a | done].
Qed.

Lemma endswith_sep_inv a :
  endswith_sep a = true -> exists a', a = a' +:+ String sep "".
Proof.
  induction a as [|c a IH]; simpl; [done |].
  destruct a as [|c' a].
  - intros ->%is_sep_true. by exists "".
  - intros [a' ->]%IH. by exists (String c a').
Qed.

Lemma endswith_sep_app a b :
  b <> "" -> endswith_sep (a +:+ b) = endswith_sep b.
Proof.
  intros Hb. induction a as [|c a IH]; simpl; [done |].
  destruct (a +:+ b) eqn:E; [| done].
  destruct a; simpl in E; [done | discriminate].
Qed.

Lemma startswith_sep_app a b :
  a <> "" -> startswith_sep (a +:+ b) = startswith_sep a.
Proof. by destruct a. Qed.

Lemma has_sep_app a b : has_sep (a +:+ b) = has_sep a || has_sep b.
Proof.
  induction a as [|c a IH]; simpl; [done |]. by rewrite IH, orb_assoc.
Qed.

Lemma no_sep_endswith s : has_sep s = false -> endswith_sep s = false.
Proof.
  induction s as [|c s IH]; simpl; [done |].
  intros [Hc Hs]%orb_false_iff. destruct s; [done | by apply IH].
Qed.

Lemma no_sep_startswith s : has_sep s = false -> startswith_sep s = false.
Proof. destruct s; simpl; [done |]. by intros [? ?]%orb_false_iff. Qed.

Lemma str_take_app a b : str_take (String.length a) (a +:+ b) = a.
Proof. induction a as [|c a IH]; simpl; [by destruct b | by rewrite IH]. Qed.

Lemma str_drop_app a b : str_drop (String.length a) (a +:+ b) = b.
Proof. induction a as [|c a IH]; simpl; [by destruct b | done]. Qed.

(** What [rfind] finds: no separator at all, or the last one. *)
Lemma rfind_sep_spec p :
  (rfind_sep p = (-1)%Z /\ has_sep p = false)
  \/ (exists a t, p = a +:+ String sep t /\ has_sep t = false
                  /\ rfind_sep p = Z.of_nat (String.length a)).
Proof.
  induction p as [|c p IH]; simpl; [by left |].
  destruct IH as [[Hr Hp] | (a & t & -> & Ht & Hr)].
  - rewrite Hr. simpl. destruct (is_sep c) eqn:Hc.
    + right. exists "", p. apply is_sep_true in Hc as ->. done.
    + left. by rewrite Hp.
  - right. exists (String c a), t. rewrite Hr. simpl.
    destruct (Z.leb_spec 0 (Z.of_nat (String.length a))); [| lia].
    split_and!; [done | done | lia].
Qed.

(** The cut [posixpath.split] and [posixpath.basename] make. *)
Lemma cut_spec p :
  let i := Z.to_nat (rfind_sep p + 1) in
  (has_sep p = false /\ str_take i p = "" /\ str_drop i p = p)
  \/ (exists a t, p = a +:+ String sep t /\ has_sep t = false
                  /\ str_take i p = a +:+ String sep "" /\ str_drop i p = t).
Proof.
  simpl. destruct (rfind_sep_spec p) as [[Hr Hp] | (a & t & -> & Ht & Hr)].
  - left. rewrite Hr. simpl. by destruct p.
  - right. exists a, t. rewrite Hr.
    replace (Z.to_nat (Z.of_nat (String.length a) + 1))
      with (String.length (a +:+ String sep "")).
    2:{ rewrite app_length_str. simpl. lia. }
    replace (a +:+ String sep t) with ((a +:+ String sep "") +:+ t).
    2:{ by rewrite app_assoc_str. }
    by rewrite str_take_app, str_drop_app.
Qed.

Lemma rstrip_sep_app_sep s : rstrip_sep (s +:+ String sep "") = rstrip_sep s.
Proof.
  induction s as [|c s IH]; simpl; [done | by rewrite IH].
Qed.


Lemma rstrip_sep_spec s :
  exists k, s = rstrip_sep s +:+ seps k /\ endswith_sep (rstrip_sep s) = false.
Proof.
  induction s as [|c s (k & Hs & He)]; simpl; [by exists 0 |].
  destruct (rstrip_sep s) eqn:Hr; simpl in *.
  - destruct (is_sep c) eqn:Hc.
    + exists (S k). apply is_sep_true in Hc as ->. simpl. by rewrite <-Hs.
    + exists k. simpl. by rewrite <-Hs, Hc.
  - exists k. by rewrite <-Hs.
Qed.

Lemma all_sep_seps k : all_sep (seps k) = true.
Proof. induction k; simpl; done. Qed.

Lemma all_sep_inv s : all_sep s = true -> s = seps (String.length s).
Proof.
  induction s as [|c s IH]; simpl; [done |].
  intros [->%is_sep_true Hs]%andb_true_iff. by rewrite <-(IH Hs).
Qed.

Lemma all_sep_app a b : all_sep (a +:+ b) = all_sep a && all_sep b.
Proof.
  induction a as [|c a IH]; simpl; [done |]. by rewrite IH, andb_assoc.
Qed.

Lemma rstrip_sep_null s : rstrip_sep s = "" -> all_sep s = true.
Proof.
  destruct (rstrip_sep_spec s) as (k & Hs & _). intros Hr.
  rewrite Hr in Hs. simpl in Hs. rewrite Hs. apply all_sep_seps.
Qed.

Lemma seps_snoc k t : seps k +:+ String sep t = String sep (seps k +:+ t).
Proof. induction k as [|k IH]; simpl; [done | by rewrite IH]. Qed.

Lemma seps_length k : String.length (seps k) = k.
Proof. induction k as [|k IH]; simpl; [done | by rewrite IH]. Qed.

(** The three shapes of [posixpath.split p]: no separator in [p]; only
    separators before the tail; a head that ends in a name, separators, and
    the tail. *)
Lemma split_spec p :
  let h := (posixpath.split p).1 in
  let t := (posixpath.split p).2 in
  has_sep t = false
  /\ ((has_sep p = false /\ h = "" /\ t = p)
      \/ (exists j, h = seps (S j) /\ p = h +:+ t)
      \/ (exists rest, h <> "" /\ endswith_sep h = false
                       /\ p = h +:+ String sep rest
                       /\ exists j, rest = seps j +:+ t)).
Proof.
  unfold posixpath.split. simpl.
  destruct (cut_spec p) as [(Hp & -> & ->) | (a & t & -> & Ht & -> & ->)];
    simpl.
  { split; [done |]. by left. }
  split; [done |]. right.
  rewrite str_null_app, all_sep_app. simpl. rewrite andb_false_r, andb_true_r.
  simpl. destruct (all_sep a) eqn:Ha; simpl.
  - left. exists (String.length a). split.
    + rewrite (all_sep_inv a Ha) at 1. rewrite seps_snoc, app_nil_r_str. done.
    + by rewrite app_assoc_str.
  - right. rewrite rstrip_sep_app_sep.
    destruct (rstrip_sep_spec a) as (k & Hk & He).
    exists (seps k +:+ t). split_and!.
    + intros Hr. apply rstrip_sep_null in Hr. congruence.
    + done.
    + rewrite Hk at 1. rewrite app_assoc_str, seps_snoc. done.
    + by exists k.
Qed.



(** ** Pathname resolution *)

Lemma is_dot_empty : is_dot "" = true.
Proof. reflexivity. Qed.

Lemma walk_lookup sigma cur cs k e :
  walk sigma cur cs = Found k e -> sigma !! k = Some e.
Proof.
  revert cur. induction cs as [|c cs IH]; intros cur; simpl.
  - destruct (sigma !! cur) eqn:E; intros [= <- <-]; done.
  - destruct (sigma !! cur) as [[m data|m]|] eqn:E; [| | done].
    + destruct (str_null c && forallb str_null cs); [| done].
      by intros [= <- <-].
    + destruct (is_dot c); [apply IH |].
      destruct (bool_decide _); [apply IH |].
      destruct (sigma !! child cur c); [apply IH |].
      by destruct (forallb str_null cs).
Qed.

Lemma walk_Missing_lookup sigma cur cs d m name :
  walk sigma cur cs = Missing d m name ->
  sigma !! d = Some (Dir m) /\ sigma !! child d name = None.
Proof.
  revert cur. induction cs as [|c cs IH]; intros cur; simpl.
  - by destruct (sigma !! cur).
  - destruct (sigma !! cur) as [[m' data|m']|] eqn:E; [| | done].
    + by destruct (str_null c && forallb str_null cs).
    + destruct (is_dot c); [apply IH |].
      destruct (bool_decide _); [apply IH |].
      destruct (sigma !! child cur c) eqn:E'; [apply IH |].
      destruct (forallb str_null cs); [| done].
      by intros [= <- <- <-].
Qed.

(** Only separators after a directory: it is still that directory. *)
Lemma walk_empties sigma cur cs m :
  forallb str_null cs = true ->
  sigma !! cur = Some (Dir m) ->
  walk sigma cur cs = Found cur (Dir m).
Proof.
  intros Hcs Hcur. induction cs as [|c cs IH]; simpl; rewrite Hcur; [done |].
  simpl in Hcs. apply andb_true_iff in Hcs as [Hc Hcs].
  apply str_null_true in Hc as ->. simpl. by apply IH.
Qed.

(** Resolution goes on from the directory a prefix resolves to. *)
Lemma walk_app_dir sigma cur cs cs2 k m :
  walk sigma cur cs = Found k (Dir m) ->
  walk sigma cur (cs ++ cs2) = walk sigma k cs2.
Proof.
  revert cur. induction cs as [|c cs IH]; intros cur; simpl.
  - destruct (sigma !! cur) eqn:E; [| done]. intros [= <- ->].
    destruct cs2; simpl; by rewrite E.
  - destruct (sigma !! cur) as [[m' data|m']|] eqn:E; [| | done].
    + by destruct (str_null c && forallb str_null cs).
    + destruct (is_dot c); [apply IH |].
      destruct (bool_decide _); [apply IH |].
      destruct (sigma !! child cur c) eqn:E'; [apply IH |].
      by destruct (forallb str_null cs).
Qed.

(** A pathname that resolves to a directory resolves to one at each cut. *)
Lemma walk_app_inv sigma cur cs cs2 k m :
  walk sigma cur (cs ++ cs2) = Found k (Dir m) ->
  exists k' m', walk sigma cur cs = Found k' (Dir m')
                /\ walk sigma k' cs2 = Found k (Dir m).
Proof.
  revert cur. induction cs as [|c cs IH]; intros cur; simpl.
  - intros H. destruct (sigma !! cur) as [[m' data|m']|] eqn:E.
    + destruct cs2 as [|c2 cs2]; simpl in H; rewrite E in H; [done |].
      by destruct (str_null c2 && forallb str_null cs2).
    + by exists cur, m'.
    + destruct cs2; simpl in H; by rewrite E in H.
  - destruct (sigma !! cur) as [[m' data|m']|] eqn:E; [| | done].
    + by destruct (str_null c && forallb str_null (cs ++ cs2)).
    + destruct (is_dot c); [apply IH |].
      destruct (bool_decide _); [apply IH |].
      destruct (sigma !! child cur c) eqn:E'; [apply IH |].
      by destruct (forallb str_null (cs ++ cs2)).
Qed.

Lemma forallb_replicate_null j : forallb str_null (replicate j "") = true.
Proof. induction j; simpl; done. Qed.

Lemma walk_extends sigma tau cur cs k e :
  extends sigma tau ->
  walk sigma cur cs = Found k e ->
  exists e', walk tau cur cs = Found k e' /\ same_kind e e'.
Proof.
  intros Hext. revert cur. induction cs as [|c cs IH]; intros cur; simpl.
  - destruct (sigma !! cur) as [e0|] eqn:E; [| done]. intros [= <- <-].
    destruct (Hext _ _ E) as (e' & -> & Hk). by exists e'.
  - destruct (sigma !! cur) as [[m data|m]|] eqn:E; [| | done];
      destruct (Hext _ _ E) as (e' & -> & Hk); simpl in Hk.
    + destruct Hk as (m' & data' & ->).
      destruct (str_null c && forallb str_null cs); [| done].
      intros [= <- <-]. eexists. split; [done |]. simpl. eauto.
    + subst e'. destruct (is_dot c); [apply IH |].
      destruct (bool_decide _); [apply IH |].
      destruct (sigma !! child cur c) as [e0|] eqn:E'.
      * destruct (Hext _ _ E') as (e0' & -> & _). apply IH.
      * by destruct (forallb str_null cs).
Qed.

Lemma subseteq_extends (sigma tau : fs) : sigma ⊆ tau -> extends sigma tau.
Proof.
  intros Hsub k e Hk. exists e. split.
  - by eapply lookup_weaken.
  - destruct e; simpl; eauto.
Qed.

Lemma extends_refl sigma : extends sigma sigma.
Proof. apply subseteq_extends. done. Qed.

Lemma same_kind_trans e1 e2 e3 :
  same_kind e1 e2 -> same_kind e2 e3 -> same_kind e1 e3.
Proof.
  destruct e1; simpl.
  - intros (m' & d' & ->). simpl. done.
  - intros ->. done.
Qed.

Lemma extends_trans s1 s2 s3 : extends s1 s2 -> extends s2 s3 -> extends s1 s3.
Proof.
  intros H12 H23 k e Hk.
  destruct (H12 _ _ Hk) as (e2 & Hk2 & Hs2).
  destruct (H23 _ _ Hk2) as (e3 & Hk3 & Hs3).
  exists e3. split; [done |]. by eapply same_kind_trans.
Qed.

(** Writing a regular file where there is none or a regular file. *)
Lemma extends_insert_file sigma k m data :
  (forall m', sigma !! k <> Some (Dir m')) ->
  extends sigma (<[k := File m data]> sigma).
Proof.
  intros Hk k' e He. destruct (decide (k = k')) as [<- | Hne].
  - rewrite lookup_insert_eq. eexists. split; [done |].
    destruct e; simpl; [eauto |]. by destruct (Hk m0).
  - rewrite lookup_insert_ne by done. exists e. split; [done |].
    destruct e; simpl; eauto.
Qed.


(** Only separators after an entry: the walk stays on it. *)
Lemma walk_empties_entry sigma cur cs e :
  forallb str_null cs = true ->
  sigma !! cur = Some e ->
  walk sigma cur cs = Found cur e.
Proof.
  intros Hcs Hcur. destruct e as [m data|m]; [| by apply walk_empties].
  destruct cs as [|c cs]; simpl; rewrite Hcur; [done |].
  simpl in Hcs. by rewrite Hcs.
Qed.

(** Creating the missing last name: the pathname then resolves to it. *)
Lemma walk_Missing_insert sigma cur cs d m name e :
  walk sigma cur cs = Missing d m name ->
  walk (<[child d name := e]> sigma) cur cs = Found (child d name) e.
Proof.
  intros Hw. pose proof (walk_Missing_lookup _ _ _ _ _ _ Hw) as [_ Hnone].
  revert cur Hw. induction cs as [|c cs IH]; intros cur; simpl.
  - by destruct (sigma !! cur).
  - destruct (sigma !! cur) as [[m' data|m']|] eqn:E; [| | done].
    + by destruct (str_null c && forallb str_null cs).
    + rewrite lookup_insert_ne by congruence. rewrite E.
      destruct (is_dot c); [apply IH |].
      destruct (bool_decide _); [apply IH |].
      destruct (sigma !! child cur c) as [e0|] eqn:E'.
      * rewrite lookup_insert_ne by congruence. rewrite E'. apply IH.
      * destruct (forallb str_null cs) eqn:Hcs; [| done].
        intros [= <- <- <-]. rewrite lookup_insert_eq.
        apply walk_empties_entry; [done |]. apply lookup_insert_eq.
Qed.





(** ** System calls and library functions *)

Section Calls.

Variable cwd : key.

Lemma resolve_lookup sigma p k e :
  resolve cwd sigma p = Found k e -> sigma !! k = Some e.
Proof.
  unfold resolve. destruct (str_null p); [done |]. apply walk_lookup.
Qed.

Lemma resolve_Missing_lookup sigma p d m name :
  resolve cwd sigma p = Missing d m name ->
  sigma !! d = Some (Dir m) /\ sigma !! child d name = None.
Proof.
  unfold resolve. destruct (str_null p); [done |]. apply walk_Missing_lookup.
Qed.

Lemma resolve_extends sigma tau p k e :
  extends sigma tau ->
  resolve cwd sigma p = Found k e ->
  exists e', resolve cwd tau p = Found k e' /\ same_kind e e'.
Proof.
  unfold resolve. destruct (str_null p); [done |]. apply walk_extends.
Qed.


Lemma resolve_extends_dir sigma tau p k m :
  extends sigma tau ->
  resolve cwd sigma p = Found k (Dir m) -> resolve cwd tau p = Found k (Dir m).
Proof.
  intros Hext Hr. destruct (resolve_extends _ _ _ _ _ Hext Hr) as (e' & -> & ->).
  done.
Qed.

Lemma resolve_Missing_insert sigma p d m name e :
  resolve cwd sigma p = Missing d m name ->
  resolve cwd (<[child d name := e]> sigma) p = Found (child d name) e.
Proof.
  unfold resolve. destruct (str_null p); [done |]. apply walk_Missing_insert.
Qed.

(** A pathname [h/rest] resolves from the directory [h] resolves to. *)
Lemma resolve_app_sep sigma h rest k m :
  h <> "" ->
  resolve cwd sigma h = Found k (Dir m) ->
  resolve cwd sigma (h +:+ String sep rest) = walk sigma k (components rest).
Proof.
  intros Hh. unfold resolve.
  rewrite str_null_app, startswith_sep_app by done.
  apply str_null_false in Hh as ->. simpl.
  rewrite components_app_sep. apply walk_app_dir.
Qed.

Lemma resolve_app_sep_inv sigma h rest k m :
  h <> "" ->
  resolve cwd sigma (h +:+ String sep rest) = Found k (Dir m) ->
  exists k' m', resolve cwd sigma h = Found k' (Dir m')
                /\ walk sigma k' (components rest) = Found k (Dir m).
Proof.
  intros Hh. unfold resolve.
  rewrite str_null_app, startswith_sep_app by done.
  apply str_null_false in Hh as ->. simpl.
  rewrite components_app_sep. apply walk_app_inv.
Qed.

Lemma walk_cons_dir sigma cur c cs k m :
  walk sigma cur (c :: cs) = Found k (Dir m) ->
  exists m', sigma !! cur = Some (Dir m').
Proof.
  simpl. destruct (sigma !! cur) as [[m' data|m']|]; [| by eauto | done].
  by destruct (str_null c && forallb str_null cs).
Qed.

Lemma components_seps_app j t :
  components (seps j +:+ t) = replicate j "" ++ components t.
Proof. induction j as [|j IH]; simpl; [done | by rewrite IH]. Qed.

Lemma seps_S_null j t : str_null (seps (S j) +:+ t) = false.
Proof. done. Qed.

Lemma resolve_abs sigma p :
  startswith_sep p = true ->
  resolve cwd sigma p = walk sigma [] (components p).
Proof. unfold resolve. destruct p; [done |]. simpl. by intros ->. Qed.

Lemma resolve_seps sigma j m :
  sigma !! [] = Some (Dir m) ->
  resolve cwd sigma (seps (S j)) = Found [] (Dir m).
Proof.
  intros Hroot. rewrite resolve_abs by done.
  rewrite components_seps. apply walk_empties; [| done].
  apply (forallb_replicate_null (S (S j))).
Qed.

Lemma resolve_seps_app sigma j t m :
  sigma !! [] = Some (Dir m) ->
  resolve cwd sigma (seps (S j) +:+ t) = walk sigma [] (components t).
Proof.
  intros Hroot. rewrite resolve_abs by done.
  rewrite components_seps_app.
  apply (walk_app_dir sigma [] (replicate (S j) "") (components t) [] m).
  apply walk_empties; [| done]. apply forallb_replicate_null.
Qed.

Lemma resolve_seps_app_inv sigma j t k m :
  resolve cwd sigma (seps (S j) +:+ t) = Found k (Dir m) ->
  exists m', sigma !! [] = Some (Dir m').
Proof.
  rewrite resolve_abs by done.
  rewrite components_seps_app.
  change (replicate (S j) "" ++ components t)
    with ("" :: (replicate j "" ++ components t)).
  apply walk_cons_dir.
Qed.

(** The head [posixpath.split] cuts off a directory is a directory. *)
Lemma resolve_split_head sigma p k m :
  resolve cwd sigma p = Found k (Dir m) ->
  (posixpath.split p).1 <> "" ->
  exists k' m', resolve cwd sigma (posixpath.split p).1 = Found k' (Dir m').
Proof.
  intros Hr Hh.
  destruct (split_spec p)
    as (_ & [(_ & Hn & _) | [(j & Hj & Hp) | (rest & Hne & _ & Hp & _)]]).
  - done.
  - rewrite Hp, Hj in Hr. apply resolve_seps_app_inv in Hr as (m' & Hroot).
    rewrite Hj. exists [], m'. by apply resolve_seps.
  - rewrite Hp in Hr.
    apply resolve_app_sep_inv in Hr as (k' & m' & Hr & _); [| done].
    by exists k', m'.
Qed.

Lemma split_empty : posixpath.split "" = ("", "").
Proof. reflexivity. Qed.

Lemma makedirs_split_head sigma p k m :
  resolve cwd sigma p = Found k (Dir m) ->
  (makedirs_split p).1 <> "" ->
  exists k' m', resolve cwd sigma (makedirs_split p).1 = Found k' (Dir m').
Proof.
  unfold makedirs_split. intros Hr.
  destruct (posixpath.split p) as [h t] eqn:Hs.
  pose proof (resolve_split_head sigma p k m Hr) as H1. rewrite Hs in H1.
  simpl in H1. destruct (str_null t); [| done].
  intros Hh. destruct (decide (h = "")) as [-> | Hne].
  - by rewrite split_empty in Hh.
  - destruct (H1 Hne) as (k' & m' & Hr'). by eapply resolve_split_head.
Qed.


Lemma resolve_existing_dir sigma p k m :
  resolve cwd sigma p = Found k (Dir m) ->
  resolve_existing cwd sigma p = Found k (Dir m).
Proof. unfold resolve_existing. by intros ->. Qed.

Lemma resolve_existing_dir_inv sigma p k m :
  resolve_existing cwd sigma p = Found k (Dir m) ->
  resolve cwd sigma p = Found k (Dir m).
Proof.
  unfold resolve_existing.
  destruct (resolve cwd sigma p) as [k' [m' data|m']| |]; [| done..].
  by destruct (endswith_sep p).
Qed.

Lemma is_dir_true sigma p :
  is_dir cwd sigma p = true <-> exists k m, resolve cwd sigma p = Found k (Dir m).
Proof.
  unfold is_dir. split.
  - destruct (resolve_existing cwd sigma p) as [k [m data|m]| |] eqn:E;
      try done.
    intros _. apply resolve_existing_dir_inv in E. eauto.
  - intros (k & m & Hr). by rewrite (resolve_existing_dir _ _ _ _ Hr).
Qed.

Lemma path_isdir_eq p sigma :
  path_isdir cwd p sigma = (sigma, Ok (is_dir cwd sigma p)).
Proof.
  unfold path_isdir, is_dir, try_except, bind, ret, sys_stat.
  by destruct (resolve_existing cwd sigma p) as [k [m data|m]| |].
Qed.

Lemma path_exists_eq p sigma :
  path_exists cwd p sigma = (sigma, Ok (exists_path cwd sigma p)).
Proof.
  unfold path_exists, exists_path, try_except, bind, ret, sys_stat.
  by destruct (resolve_existing cwd sigma p) as [k [m data|m]| |].
Qed.

(** [mkdir] inside [makedirs(..., exist_ok=True)]: an existing directory is
    accepted, anything else is what [mkdir] does. *)
Lemma makedirs_mkdir_eq name sigma :
  makedirs_mkdir cwd name true sigma =
  match resolve cwd sigma name with
  | Found _ (Dir _) => (sigma, Ok tt)
  | Found _ (File _ _) => (sigma, Raise (OSError EEXIST name))
  | Missing d m n =>
      if writable m then (<[child d n := Dir new_dir_mode]> sigma, Ok tt)
      else (sigma, Raise (OSError EACCES name))
  | Fail e => (sigma, Raise (OSError e name))
  end.
Proof.
  unfold makedirs_mkdir, try_except, sys_mkdir, bind.
  destruct (resolve cwd sigma name) as [k [m data|m]|d m n|e] eqn:E; simpl;
    [| | destruct (writable m); [done |]; simpl |];
    rewrite path_isdir_eq; unfold is_dir, resolve_existing; rewrite E;
    try done.
  by destruct (endswith_sep name).
Qed.

Lemma makedirs_mkdir_subseteq name ok sigma sigma' r :
  makedirs_mkdir cwd name ok sigma = (sigma', r) -> sigma ⊆ sigma'.
Proof.
  unfold makedirs_mkdir, try_except, sys_mkdir, bind.
  destruct (resolve cwd sigma name) as [k e|d m n|e] eqn:E; simpl;
    rewrite ?path_isdir_eq.
  - destruct (negb ok || negb (is_dir cwd sigma name)); by intros [= <- <-].
  - destruct (writable m); simpl; rewrite ?path_isdir_eq.
    + intros [= <- <-]. apply insert_subseteq.
      by apply resolve_Missing_lookup in E as [_ ?].
    + destruct (negb ok || negb (is_dir cwd sigma name)); by intros [= <- <-].
  - destruct (negb ok || negb (is_dir cwd sigma name)); by intros [= <- <-].
Qed.


Lemma makedirs_rec_subseteq fuel name ok sigma sigma' r :
  makedirs_rec cwd fuel name ok sigma = (sigma', r) -> sigma ⊆ sigma'.
Proof.
  revert name sigma sigma' r.
  induction fuel as [|fuel IH]; intros name sigma sigma' r; simpl.
  { by intros [= <- <-]. }
  destruct (makedirs_split name) as [h t].
  destruct (negb (str_null h) && negb (str_null t));
    [| apply makedirs_mkdir_subseteq].
  unfold bind at 1. rewrite path_exists_eq.
  destruct (exists_path cwd sigma h); simpl; [apply makedirs_mkdir_subseteq |].
  unfold bind, try_except.
  destruct (makedirs_rec cwd fuel h ok sigma) as [s1 [[]|e]] eqn:E1;
    apply IH in E1.
  - destruct (bool_decide (t = posixpath.curdir)).
    + by intros [= <- <-].
    + intros H%makedirs_mkdir_subseteq. by etrans.
  - destruct (is_FileExistsError e); simpl.
    + destruct (bool_decide (t = posixpath.curdir)).
      * by intros [= <- <-].
      * intros H%makedirs_mkdir_subseteq. by etrans.
    + by intros [= <- <-].
Qed.

Lemma makedirs_rec_isdir_noop fuel name sigma k m :
  resolve cwd sigma name = Found k (Dir m) ->
  makedirs_rec cwd (S fuel) name true sigma = (sigma, Ok tt).
Proof.
  intros Hr. simpl.
  pose proof (makedirs_split_head sigma name k m Hr) as Hh.
  destruct (makedirs_split name) as [h t]. simpl in Hh.
  assert (makedirs_mkdir cwd name true sigma = (sigma, Ok tt)) as Hmk.
  { by rewrite makedirs_mkdir_eq, Hr. }
  destruct (str_null h) eqn:Hn; simpl; [done |].
  destruct (str_null t); simpl; [done |].
  unfold bind. rewrite path_exists_eq.
  destruct Hh as (k' & m' & Hr'); [by apply str_null_false |].
  unfold exists_path. rewrite (resolve_existing_dir _ _ _ _ Hr'). done.
Qed.




Lemma makedirs_isdir_noop name sigma k m :
  resolve cwd sigma name = Found k (Dir m) ->
  makedirs cwd name true sigma = (sigma, Ok tt).
Proof. apply makedirs_rec_isdir_noop. Qed.


Lemma makedirs_subseteq name ok sigma sigma' r :
  makedirs cwd name ok sigma = (sigma', r) -> sigma ⊆ sigma'.
Proof. apply makedirs_rec_subseteq. Qed.


Lemma shutil_samefile_eq a b sigma :
  shutil_samefile cwd a b sigma = (sigma, Ok (same_file cwd sigma a b)).
Proof.
  unfold shutil_samefile, try_except, path_samefile, same_file.
  destruct (resolve_existing cwd sigma a) as [ka ea| |]; [| done..].
  by destruct (resolve_existing cwd sigma b) as [kb eb| |].
Qed.

Lemma resolve_existing_file_inv sigma p k m data :
  resolve_existing cwd sigma p = Found k (File m data) ->
  resolve cwd sigma p = Found k (File m data) /\ endswith_sep p = false.
Proof.
  unfold resolve_existing.
  destruct (resolve cwd sigma p) as [k' [m' data'|m']| |]; [| done..].
  by destruct (endswith_sep p).
Qed.

Lemma resolve_existing_file sigma p k m data :
  resolve cwd sigma p = Found k (File m data) ->
  endswith_sep p = false ->
  resolve_existing cwd sigma p = Found k (File m data).
Proof. unfold resolve_existing. by intros -> ->. Qed.

(** A regular file keeps its place when another key is written. *)
Lemma resolve_existing_insert_other sigma p k e kd m data :
  resolve_existing cwd sigma p = Found k e ->
  k <> kd ->
  (forall m', sigma !! kd <> Some (Dir m')) ->
  resolve_existing cwd (<[kd := File m data]> sigma) p = Found k e.
Proof.
  intros Hr Hne Hkd.
  assert (exists e0, resolve cwd sigma p = Found k e0) as [e0 Hr0].
  { unfold resolve_existing in Hr.
    destruct (resolve cwd sigma p) as [k' [m' data'|m']| |]; try done.
    - destruct (endswith_sep p); [done |]. injection Hr as <- <-. eauto.
    - injection Hr as <- <-. eauto. }
  destruct (resolve_extends sigma (<[kd := File m data]> sigma) p k e0)
    as (e' & Hr' & _); [by apply extends_insert_file | done |].
  pose proof (resolve_lookup _ _ _ _ Hr') as Hl.
  pose proof (resolve_lookup _ _ _ _ Hr0) as Hl0.
  rewrite lookup_insert_ne in Hl by done.
  assert (e' = e0) as -> by congruence.
  unfold resolve_existing in *. by rewrite Hr', <-Hr, Hr0.
Qed.

Lemma resolve_written sigma p kd m data :
  open_target cwd sigma p = inr kd ->
  resolve_existing cwd (<[kd := File m data]> sigma) p = Found kd (File m data)
  /\ (forall m', sigma !! kd <> Some (Dir m')).
Proof.
  unfold open_target.
  destruct (resolve cwd sigma p) as [k [m0 data0|m0]|d m0 n|e] eqn:E;
    try done; destruct (endswith_sep p) eqn:Hs; try done;
    destruct (writable m0); try done; intros [= <-].
  - pose proof (resolve_lookup _ _ _ _ E) as Hl.
    assert (forall m', sigma !! k <> Some (Dir m')) as Hnd by congruence.
    split; [| done].
    destruct (resolve_extends sigma (<[k := File m data]> sigma) p k
                (File m0 data0))
      as (e' & Hr' & _); [by apply extends_insert_file | done |].
    pose proof (resolve_lookup _ _ _ _ Hr') as Hl'.
    rewrite lookup_insert_eq in Hl'. injection Hl' as <-.
    by apply resolve_existing_file.
  - pose proof (resolve_Missing_lookup _ _ _ _ _ E) as [_ Hl].
    split; [| congruence].
    apply resolve_existing_file; [| done]. by eapply resolve_Missing_insert.
Qed.

Lemma same_file_false_keys sigma src dst ks es kd :
  same_file cwd sigma src dst = false ->
  resolve_existing cwd sigma src = Found ks es ->
  open_target cwd sigma dst = inr kd ->
  ks <> kd.
Proof.
  unfold same_file, open_target. intros Hsame Hs. rewrite Hs in Hsame.
  assert (sigma !! ks = Some es) as Hl.
  { unfold resolve_existing in Hs.
    destruct (resolve cwd sigma src) as [k' [m' data'|m']| |] eqn:E; try done.
    - destruct (endswith_sep src); [done |]. injection Hs as <- <-.
      by eapply resolve_lookup.
    - injection Hs as <- <-. by eapply resolve_lookup. }
  destruct (resolve cwd sigma dst) as [k [m0 data0|m0]|d m0 n|e] eqn:E;
    try done; destruct (endswith_sep dst) eqn:Hsl; try done;
    destruct (writable m0); try done; intros [= <-].
  - rewrite (resolve_existing_file _ _ _ _ _ E Hsl) in Hsame.
    by apply bool_decide_eq_false in Hsame.
  - apply resolve_Missing_lookup in E as [_ E]. congruence.
Qed.

(** [shutil.copy] is its closed form. *)
Lemma copy_eq src dst sigma :
  copy cwd src dst sigma = copy_result cwd sigma src dst.
Proof.
  unfold copy, copy_result. unfold bind at 1. rewrite path_isdir_eq.
  fold (copy_dest cwd sigma src dst). set (dst' := copy_dest cwd sigma src dst).
  unfold bind at 1. unfold copyfile at 1. unfold bind at 1.
  rewrite shutil_samefile_eq.
  destruct (same_file cwd sigma src dst') eqn:Hsame; [done |].
  unfold bind at 1. unfold open_rb.
  destruct (resolve_existing cwd sigma src) as [ks [ms data|ms]| |] eqn:Es;
    [| done..].
  destruct (readable ms) eqn:Hrd; [| done].
  unfold bind at 1. unfold try_except. unfold bind at 1.
  destruct (open_target cwd sigma dst') as [en|kd] eqn:Et.
  - assert (open_wb cwd dst' sigma = (sigma, Raise (OSError en dst'))) as ->.
    { unfold open_wb. unfold open_target in Et.
      destruct (resolve cwd sigma dst') as [k [m0 data0|m0]|d m0 n|e];
        [destruct (endswith_sep dst'); [| destruct (writable m0)] | |
         destruct (endswith_sep dst'); [| destruct (writable m0)] |];
        congruence. }
    destruct en; simpl; try done.
    unfold bind. rewrite path_exists_eq.
    by destruct (exists_path cwd sigma dst').
  - pose proof (same_file_false_keys _ _ _ _ _ _ Hsame Es Et) as Hne.
    pose proof (resolve_existing_file_inv _ _ _ _ _ Es) as [Hrs Hss].
    pose proof (resolve_lookup _ _ _ _ Hrs) as Hls.
    assert (exists md, open_wb cwd dst' sigma
                       = (<[kd := File md ""]> sigma, Ok kd)) as [md ->].
    { unfold open_wb. unfold open_target in Et.
      destruct (resolve cwd sigma dst') as [k [m0 data0|m0]|d m0 n|e];
        [destruct (endswith_sep dst'); [| destruct (writable m0)] | |
         destruct (endswith_sep dst'); [| destruct (writable m0)] |];
        try congruence; injection Et as <-; eauto. }
    unfold bind, file_read, file_write, gets, modify.
    rewrite lookup_insert_eq, lookup_insert_ne, Hls, insert_insert_eq
      by congruence.
    unfold ret, copymode, bind, sys_stat, sys_chmod.
    pose proof (resolve_written sigma dst' kd md data Et) as [Hw Hnd].
    rewrite (resolve_existing_insert_other sigma src ks (File ms data) kd md data)
      by done.
    rewrite Hw. simpl. by rewrite insert_insert_eq.
Qed.

(** What a copy that returns has done. *)
Lemma copy_ok_inv src dst sigma sigma' r :
  copy cwd src dst sigma = (sigma', Ok r) ->
  r = copy_dest cwd sigma src dst
  /\ exists ks ms data kd,
      resolve_existing cwd sigma src = Found ks (File ms data)
      /\ readable ms = true
      /\ open_target cwd sigma r = inr kd
      /\ ks <> kd
      /\ sigma' = <[kd := File ms data]> sigma.
Proof.
  rewrite copy_eq. unfold copy_result.
  destruct (same_file cwd sigma src (copy_dest cwd sigma src dst)) eqn:Hsame;
    [done |].
  destruct (resolve_existing cwd sigma src) as [ks [ms data|ms]| |] eqn:Es;
    [| done..].
  destruct (readable ms) eqn:Hrd; [| done].
  destruct (open_target cwd sigma (copy_dest cwd sigma src dst)) as [en|kd]
    eqn:Et; [done |].
  intros [= <- <-]. split; [done |].
  exists ks, ms, data, kd. split_and!; try done.
  by eapply same_file_false_keys.
Qed.

(** A copy that raises has changed nothing, and its exception names one of
    its paths. *)
Lemma copy_raise_inv src dst sigma sigma' e :
  copy cwd src dst sigma = (sigma', Raise e) ->
  sigma' = sigma /\ error_names e src (copy_dest cwd sigma src dst).
Proof.
  rewrite copy_eq. unfold copy_result, error_names.
  destruct (same_file cwd sigma src (copy_dest cwd sigma src dst)).
  { intros [= <- <-]. eauto. }
  destruct (resolve_existing cwd sigma src) as [ks [ms data|ms]| |];
    [| intros [= <- <-]; eauto..].
  destruct (readable ms); [| intros [= <- <-]; eauto].
  destruct (open_target cwd sigma (copy_dest cwd sigma src dst));
    intros [= <- <-]; eauto.
Qed.

Lemma open_target_not_dir sigma p kd :
  open_target cwd sigma p = inr kd -> forall m', sigma !! kd <> Some (Dir m').
Proof. intros H. by eapply (resolve_written sigma p kd (Mode true true) ""). Qed.

Lemma copy_extends src dst sigma sigma' r :
  copy cwd src dst sigma = (sigma', r) -> extends sigma sigma'.
Proof.
  destruct r as [r|e].
  - intros (_ & ks & ms & data & kd & _ & _ & Ht & _ & ->)%copy_ok_inv.
    apply extends_insert_file. by eapply open_target_not_dir.
  - intros [-> _]%copy_raise_inv. apply extends_refl.
Qed.

Lemma copy_all_extends plan sigma sigma' r :
  copy_all cwd plan sigma = (sigma', r) -> extends sigma sigma'.
Proof.
  revert sigma. induction plan as [|[src dst] plan IH]; intros sigma; simpl.
  - intros [= <- <-]. apply extends_refl.
  - unfold bind.
    destruct (copy cwd src dst sigma) as [s1 [r1|e1]] eqn:E1;
      apply copy_extends in E1.
    + intros H%IH. by eapply extends_trans.
    + by intros [= <- <-].
Qed.

(** ** The run of the script *)

Lemma bind_eq {S A B} (m : SE S A) (k : A -> SE S B) st :
  bind m k st
  = match m st with
    | (s', Ok a) => k a s'
    | (s', Raise e) => (s', Raise e)
    end.
Proof. reflexivity. Qed.

Lemma shutil_copy_eq src dst sigma tr :
  shutil_copy cwd src dst (State sigma tr)
  = (State (copy cwd src dst sigma).1 (tr ++ [EvCopy src dst]),
     (copy cwd src dst sigma).2).
Proof.
  unfold shutil_copy, call. simpl. by destruct (copy cwd src dst sigma).
Qed.

Lemma os_makedirs_eq name ok sigma tr :
  os_makedirs cwd name ok (State sigma tr)
  = (State (makedirs cwd name ok sigma).1 (tr ++ [EvMakedirs name]),
     (makedirs cwd name ok sigma).2).
Proof.
  unfold os_makedirs, call. simpl. by destruct (makedirs cwd name ok sigma).
Qed.

(** The copies of a plan: all of them, in order; or those up to the first
    that raises, which leaves the file system as the ones before it made
    it. *)
Lemma exec_plan_spec plan sigma tr :
  (exists sigma',
      copy_all cwd plan sigma = (sigma', Ok tt)
      /\ exec_plan cwd plan (State sigma tr)
         = (State sigma' (tr ++ copy_events plan), Ok tt))
  \/ (exists done sd rest sigmak e,
        plan = done ++ sd :: rest
        /\ copy_all cwd done sigma = (sigmak, Ok tt)
        /\ copy cwd sd.1 sd.2 sigmak = (sigmak, Raise e)
        /\ copy_all cwd plan sigma = (sigmak, Raise e)
        /\ exec_plan cwd plan (State sigma tr)
           = (State sigmak (tr ++ copy_events (done ++ [sd])), Raise e)).
Proof.
  revert sigma tr. induction plan as [|[src dst] plan IH]; intros sigma tr.
  - left. exists sigma. simpl. unfold ret. by rewrite app_nil_r.
  - simpl. unfold bind. rewrite shutil_copy_eq.
    destruct (copy cwd src dst sigma) as [s1 [r1|e1]] eqn:E1; simpl.
    + destruct (IH s1 (tr ++ [EvCopy src dst]))
        as [(s' & Hc & He) | (done & sd & rest & sk & e & -> & Hd & Hf & Hc & He)].
      * left. exists s'. rewrite Hc, He. split; [done |].
        by rewrite <-app_assoc.
      * right. exists ((src, dst) :: done), sd, rest, sk, e.
        rewrite Hc, He. simpl. unfold bind. rewrite E1.
        split_and!; try done. by rewrite <-app_assoc.
    + right. apply copy_raise_inv in E1 as Hinv. destruct Hinv as [-> _].
      exists [], (src, dst), plan, sigma, e1. simpl. done.
Qed.

Lemma for_each_exec (body : string -> SE state unit) s d extras st :
  (forall f st',
      body f st'
      = match shutil_copy cwd (posixpath.join s f) (posixpath.join d f) st'
        with
        | (st1, Ok _) => (st1, Ok tt)
        | (st1, Raise e) => (st1, Raise e)
        end) ->
  for_each extras body st
  = exec_plan cwd
      (map (fun f => (posixpath.join s f, posixpath.join d f)) extras) st.
Proof.
  intros Hbody. revert st. induction extras as [|f extras IH]; intros st.
  - done.
  - simpl. unfold bind. rewrite Hbody.
    destruct (shutil_copy cwd (posixpath.join s f) (posixpath.join d f) st)
      as [st1 [r1|e1]]; [apply IH | done].
Qed.

(** The script with its four arguments present: [makedirs], then the plan. *)
Lemma run_five prog s d m n extras sigma :
  run cwd (prog :: s :: d :: m :: n :: extras) sigma
  = match makedirs cwd d true sigma with
    | (sigma1, Ok _) =>
        exec_plan cwd (copy_plan s d m n extras)
          (State sigma1 [EvMakedirs d])
    | (sigma1, Raise e) => (State sigma1 [EvMakedirs d], Raise e)
    end.
Proof.
  unfold run, main, argv_get. simpl lookup. simpl drop.
  unfold bind at 1. unfold bind at 1. unfold ret at 1.
  rewrite os_makedirs_eq. simpl.
  destruct (makedirs cwd d true sigma) as [s1 [[]|e]]; simpl; [| done].
  unfold bind at 1. unfold bind at 1. unfold ret at 1.
  unfold bind at 1. unfold ret at 1. unfold bind at 1. unfold ret at 1.
  rewrite (bind_eq (shutil_copy cwd m (posixpath.join d n))).
  destruct (shutil_copy cwd m (posixpath.join d n) (State s1 [EvMakedirs d]))
    as [st1 [r1|e1]]; [| done].
  apply for_each_exec. intros f st'. unfold bind, ret.
  by destruct (shutil_copy cwd _ _ st') as [st2 [r2|e2]].
Qed.

(** Fewer arguments: [IndexError], before or after [makedirs]. *)
Lemma run_short argv sigma :
  length argv < 5 ->
  run cwd argv sigma
  = match argv !! 2 with
    | None => (State sigma [], Raise IndexError)
    | Some d =>
        match makedirs cwd d true sigma with
        | (sigma1, Ok _) => (State sigma1 [EvMakedirs d], Raise IndexError)
        | (sigma1, Raise e) => (State sigma1 [EvMakedirs d], Raise e)
        end
    end.
Proof.
  intros Hlen. unfold run, main, argv_get.
  destruct argv as [|a0 [|a1 [|a2 [|a3 [|a4 argv]]]]]; simpl in Hlen;
    try lia; simpl lookup; try done;
    unfold bind, ret, raise; rewrite os_makedirs_eq; simpl;
    by destruct (makedirs cwd a2 true sigma) as [s1 [[]|e]].
Qed.

Lemma resolve_existing_extends_file sigma tau p k m data :
  extends sigma tau ->
  resolve_existing cwd sigma p = Found k (File m data) ->
  exists m' data', resolve_existing cwd tau p = Found k (File m' data').
Proof.
  intros Hext [Hr Hs]%resolve_existing_file_inv.
  destruct (resolve_extends _ _ _ _ _ Hext Hr) as (e' & Hr' & m' & data' & ->).
  exists m', data'. by apply resolve_existing_file.
Qed.

Lemma same_regular_file_extends sigma tau a b :
  extends sigma tau ->
  same_regular_file cwd sigma a b -> same_regular_file cwd tau a b.
Proof.
  intros Hext (k & (ma & da & Ha) & (mb & db & Hb)).
  exists k. split; by eapply resolve_existing_extends_file.
Qed.

(** Source and destination are one regular file: [SameFileError]. *)
Lemma copy_same_file src dst sigma :
  same_regular_file cwd sigma src dst ->
  copy cwd src dst sigma = (sigma, Raise (SameFileError src dst)).
Proof.
  intros (k & (ma & da & Ha) & (mb & db & Hb)).
  rewrite copy_eq. unfold copy_result, copy_dest, is_dir. rewrite Hb.
  unfold same_file. rewrite Ha, Hb. by rewrite bool_decide_eq_true_2.
Qed.

Lemma copy_all_ok_not_same plan sigma sigma' a b :
  copy_all cwd plan sigma = (sigma', Ok tt) ->
  (a, b) ∈ plan ->
  ~ same_regular_file cwd sigma a b.
Proof.
  revert sigma. induction plan as [|[src dst] plan IH]; intros sigma.
  - intros _ Hin. by apply elem_of_nil in Hin.
  - simpl. unfold bind.
    destruct (copy cwd src dst sigma) as [s1 [r1|e1]] eqn:E1; [| done].
    intros Hall [[= -> ->] | Hin]%elem_of_cons Hsame.
    + rewrite (copy_same_file _ _ _ Hsame) in E1. done.
    + eapply IH; [done | done |].
      eapply same_regular_file_extends; [| done]. by eapply copy_extends.
Qed.


(** An existing regular file as destination is replaced by the source. *)
Lemma copy_overwrites src dst sigma sigma' r kd md data0 :
  copy cwd src dst sigma = (sigma', Ok r) ->
  resolve cwd sigma dst = Found kd (File md data0) ->
  r = dst
  /\ exists ks ms data,
      resolve cwd sigma src = Found ks (File ms data)
      /\ sigma' !! kd = Some (File ms data).
Proof.
  intros (-> & ks & ms & data & kd' & Hs & _ & Ht & _ & ->)%copy_ok_inv Hd.
  assert (copy_dest cwd sigma src dst = dst) as Hdst.
  { unfold copy_dest, is_dir, resolve_existing. rewrite Hd.
    by destruct (endswith_sep dst). }
  rewrite Hdst in *. split; [done |].
  apply resolve_existing_file_inv in Hs as [Hs _].
  exists ks, ms, data. split; [done |].
  unfold open_target in Ht. rewrite Hd in Ht.
  destruct (endswith_sep dst); [done |]. destruct (writable md); [| done].
  injection Ht as <-. apply lookup_insert_eq.
Qed.

Lemma copy_events_plan s d m n extras :
  copy_events (copy_plan s d m n extras)
  = EvCopy m (posixpath.join d n)
      :: map (fun f => EvCopy (posixpath.join s f) (posixpath.join d f)) extras.
Proof.
  unfold copy_events, copy_plan. simpl. f_equal.
  rewrite map_map. done.
Qed.

Lemma copy_events_app l1 l2 :
  copy_events (l1 ++ l2) = copy_events l1 ++ copy_events l2.
Proof. unfold copy_events. apply map_app. Qed.

Lemma copy_events_take done sd rest :
  copy_events (done ++ [sd])
  = take (S (length done)) (copy_events (done ++ sd :: rest)).
Proof.
  rewrite !copy_events_app.
  assert (length (copy_events done) = length done) as Hl.
  { unfold copy_events. apply length_map. }
  rewrite <-Hl. rewrite take_app_ge by lia.
  replace (S (length (copy_events done)) - length (copy_events done))
    with 1 by lia.
  done.
Qed.

(** ** Copies into the destination directory *)

Lemma startswith_sep_app_sep x t :
  startswith_sep (x +:+ String sep t) = startswith_sep (x +:+ String sep "").
Proof. by destruct x. Qed.

Lemma str_null_app_sep x t : str_null (x +:+ String sep t) = false.
Proof. by destruct x. Qed.

(** [os.path.join(x, b)] for a directory [x] and one component [b]: [b] is
    resolved in [x]. *)
Lemma resolve_join sigma x X mx b :
  resolve cwd sigma x = Found X (Dir mx) ->
  has_sep b = false ->
  resolve cwd sigma (posixpath.join x b) = walk sigma X [b].
Proof.
  intros Hx Hb. unfold posixpath.join.
  rewrite (no_sep_startswith b Hb), orb_false_l.
  destruct (str_null x) eqn:Hn.
  { apply str_null_true in Hn as ->. done. }
  apply str_null_false in Hn.
  destruct (endswith_sep x) eqn:He.
  - apply endswith_sep_inv in He as [x' ->].
    rewrite app_assoc_str. change (String sep "" +:+ b) with (String sep b).
    unfold resolve in *. rewrite str_null_app_sep in *.
    rewrite startswith_sep_app_sep.
    rewrite components_app_sep in *. rewrite (components_no_sep b Hb).
    change (components "") with [""] in Hx.
    apply walk_app_inv in Hx as (k' & m' & Hw & Hk).
    pose proof (walk_lookup _ _ _ _ _ Hw) as Hl.
    rewrite (walk_empties sigma k' [""] m') in Hk by done.
    injection Hk as <- <-. by eapply walk_app_dir.
  - rewrite (resolve_app_sep sigma x b X mx) by done.
    by rewrite (components_no_sep b Hb).
Qed.

Lemma plain_name_inv g :
  plain_name g = true ->
  g <> "" /\ has_sep g = false /\ is_dot g = false /\ g <> posixpath.pardir.
Proof.
  unfold plain_name. rewrite !andb_true_iff, !negb_true_iff.
  intros [[[Hn Hs] Hd] Hp]. split_and!; try done.
  - by apply str_null_false.
  - by apply bool_decide_eq_false in Hp.
Qed.

Lemma walk_plain sigma X mx g :
  sigma !! X = Some (Dir mx) ->
  plain_name g = true ->
  walk sigma X [g]
  = match sigma !! child X g with
    | Some e => Found (child X g) e
    | None => Missing X mx g
    end.
Proof.
  intros HX (Hn & Hs & Hd & Hp)%plain_name_inv. simpl. rewrite HX, Hd.
  rewrite bool_decide_eq_false_2 by done.
  by destruct (sigma !! child X g) as [e|] eqn:E.
Qed.

(** [os.path.join(x, g)] for a plain name [g]: the entry [g] of [x]. *)
Lemma resolve_join_plain sigma x X mx g :
  base_dir cwd sigma x X mx ->
  plain_name g = true ->
  resolve cwd sigma (posixpath.join x g)
  = match sigma !! child X g with
    | Some e => Found (child X g) e
    | None => Missing X mx g
    end.
Proof.
  intros [(-> & -> & Hl) | Hx] Hg.
  - pose proof (plain_name_inv g Hg) as (Hn & Hs & _).
    unfold posixpath.join. rewrite (no_sep_startswith g Hs). simpl.
    unfold resolve. apply str_null_false in Hn as ->.
    rewrite (no_sep_startswith g Hs), (components_no_sep g Hs).
    by apply walk_plain.
  - pose proof (plain_name_inv g Hg) as (_ & Hs & _).
    rewrite (resolve_join sigma x X mx g Hx Hs).
    apply walk_plain; [| done]. by eapply resolve_lookup.
Qed.

Lemma join_plain_endswith x g :
  plain_name g = true -> endswith_sep (posixpath.join x g) = false.
Proof.
  intros (Hn & Hs & _)%plain_name_inv.
  pose proof (no_sep_endswith g Hs) as He.
  unfold posixpath.join.
  destruct (startswith_sep g || str_null x); [done |].
  destruct (endswith_sep x).
  - by rewrite endswith_sep_app.
  - rewrite endswith_sep_app by done. simpl. by destruct g.
Qed.



Lemma parent_child D g : parent (child D g) = D.
Proof. unfold parent, child. apply removelast_last. Qed.

Lemma basename_no_sep p : has_sep (posixpath.basename p) = false.
Proof.
  unfold posixpath.basename.
  destruct (cut_spec p) as [(Hp & _ & ->) | (a & t & _ & Ht & _ & ->)]; done.
Qed.

Lemma plan_of_items s d m n extras :
  copy_plan s d m n extras = plan_of d (items_of s m n extras).
Proof.
  unfold copy_plan, plan_of, items_of. simpl. f_equal.
  rewrite map_map. done.
Qed.

Lemma open_target_plain sigma d D md g kd :
  resolve cwd sigma d = Found D (Dir md) ->
  plain_name g = true ->
  open_target cwd sigma (posixpath.join d g) = inr kd ->
  kd = child D g.
Proof.
  intros Hd Hg. unfold open_target.
  rewrite (resolve_join_plain sigma d D md g (or_intror Hd) Hg).
  rewrite (join_plain_endswith d g Hg).
  destruct (sigma !! child D g) as [[m2 data2|m2]|]; try done.
  - destruct (writable m2); [| done]. by intros [= <-].
  - destruct (writable md); [| done]. by intros [= <-].
Qed.

Lemma is_dir_join_plain sigma d D md g :
  resolve cwd sigma d = Found D (Dir md) ->
  plain_name g = true ->
  is_dir cwd sigma (posixpath.join d g) = true ->
  exists m2, resolve cwd sigma (posixpath.join d g) = Found (child D g) (Dir m2).
Proof.
  intros Hd Hg (k & m2 & Hr)%is_dir_true.
  rewrite (resolve_join_plain sigma d D md g (or_intror Hd) Hg) in Hr.
  rewrite (resolve_join_plain sigma d D md g (or_intror Hd) Hg).
  destruct (sigma !! child D g) as [e|]; [| done].
  injection Hr as <- ->. eauto.
Qed.

(** Opening [x/b] for writing, [x] a directory below a directory: the file
    is the entry [b] of [x]. *)
Lemma open_target_in_dir sigma x X mx mp b kd :
  resolve cwd sigma x = Found X (Dir mx) ->
  sigma !! parent X = Some (Dir mp) ->
  has_sep b = false ->
  open_target cwd sigma (posixpath.join x b) = inr kd ->
  kd = child X b.
Proof.
  intros Hx Hp Hb. unfold open_target.
  rewrite (resolve_join sigma x X mx b Hx Hb).
  pose proof (resolve_lookup _ _ _ _ Hx) as Hl.
  simpl. rewrite Hl.
  destruct (is_dot b); [done |].
  destruct (bool_decide (b = posixpath.pardir)).
  { by rewrite Hp. }
  destruct (sigma !! child X b) as [e|] eqn:El.
  - destruct e as [m3 data3|m3]; [| done].
    destruct (endswith_sep _); [done |]. destruct (writable m3); [| done].
    by intros [= <-].
  - destruct (endswith_sep _); [done |]. destruct (writable mx); [| done].
    by intros [= <-].
Qed.

(** A copy to [dest_dir/g] writes at [g] in [dest_dir] or below it. *)
Lemma copy_into_dest sigma d D md g src sigma' r k :
  resolve cwd sigma d = Found D (Dir md) ->
  plain_name g = true ->
  copy cwd src (posixpath.join d g) sigma = (sigma', r) ->
  ~ child D g `prefix_of` k ->
  sigma' !! k = sigma !! k.
Proof.
  intros Hd Hg Hcp Hk. destruct r as [r|e].
  2:{ by apply copy_raise_inv in Hcp as [-> _]. }
  apply copy_ok_inv in Hcp as (-> & ks & ms & data & kd & _ & _ & Ht & _ & ->).
  apply lookup_insert_ne. intros <-. apply Hk. clear Hk.
  unfold copy_dest in Ht.
  destruct (is_dir cwd sigma (posixpath.join d g)) eqn:Hdir.
  - destruct (is_dir_join_plain _ _ _ _ _ Hd Hg Hdir) as [m2 Hj].
    apply (open_target_in_dir sigma _ (child D g) m2 md) in Ht as ->.
    + by apply prefix_app_r.
    + done.
    + rewrite parent_child. by eapply resolve_lookup.
    + apply basename_no_sep.
  - apply (open_target_plain sigma d D md g) in Ht as ->; done.
Qed.






Lemma items_of_names s m n extras : (items_of s m n extras).*2 = n :: extras.
Proof.
  unfold items_of. simpl. f_equal. rewrite <-list_fmap_compose.
  apply list_fmap_id.
Qed.




(** Copies to plain names of [dest_dir] change nothing but these names and
    what is below them. *)
Lemma copy_all_frame d D md items sigma sigma' r k :
  resolve cwd sigma d = Found D (Dir md) ->
  Forall (fun g => plain_name g = true) items.*2 ->
  copy_all cwd (plan_of d items) sigma = (sigma', r) ->
  (forall g, g ∈ items.*2 -> ~ child D g `prefix_of` k) ->
  sigma' !! k = sigma !! k.
Proof.
  revert sigma. induction items as [|[src g] items IH]; intros sigma Hd Hpl.
  { by intros [= <- <-]. }
  simpl in Hpl. apply Forall_cons in Hpl as [Hpg Hpl].
  simpl. unfold bind.
  destruct (copy cwd src (posixpath.join d g) sigma) as [s1 [r1|e1]] eqn:E1.
  - intros Hall Hk.
    rewrite (IH s1); [| | done | done |].
    + eapply copy_into_dest; [done | done | done |]. apply Hk. apply elem_of_cons. by left.
    + eapply resolve_extends_dir; [| done]. by eapply copy_extends.
    + intros g' Hg'. apply Hk. apply elem_of_cons. by right.
  - intros [= <- <-] Hk.
    eapply copy_into_dest; [done | done | done |]. apply Hk. apply elem_of_cons. by left.
Qed.

(** What [exec_plan] leaves is what [copy_all] leaves. *)
Lemma exec_plan_fs plan sigma tr st r :
  exec_plan cwd plan (State sigma tr) = (st, r) ->
  copy_all cwd plan sigma = (st_fs st, r).
Proof.
  destruct (exec_plan_spec plan sigma tr)
    as [(s' & Hc & He) | (dn & sd & rest & sk & e & Hp & Hd & Hf & Hc & He)];
    rewrite Hc, He; by intros [= <- <-].
Qed.


(** ** [makedirs] creates the missing directories *)

Lemma rfind_no_sep t : has_sep t = false -> rfind_sep t = (-1)%Z.
Proof.
  induction t as [|c t IH]; simpl; [done |].
  intros [Hc Ht]%orb_false_iff. by rewrite (IH Ht), Hc.
Qed.



Lemma split_no_sep t : has_sep t = false -> posixpath.split t = ("", t).
Proof.
  intros Ht. unfold posixpath.split. rewrite (rfind_no_sep t Ht). simpl.
  by destruct t.
Qed.




Lemma walk_app_found sigma cur cs cs2 k e :
  walk sigma cur (cs ++ cs2) = Found k e ->
  exists k' e', walk sigma cur cs = Found k' e'.
Proof.
  revert cur. induction cs as [|c cs IH]; intros cur; simpl.
  - intros H. destruct (sigma !! cur) as [e0|] eqn:E; [by eauto |].
    destruct cs2; simpl in H; by rewrite E in H.
  - destruct (sigma !! cur) as [[m' data|m']|] eqn:E; [| | done].
    + rewrite forallb_app.
      destruct (str_null c); simpl; [| done].
      destruct (forallb str_null cs); simpl; [by eauto | done].
    + destruct (is_dot c); [apply IH |].
      destruct (bool_decide _); [apply IH |].
      destruct (sigma !! child cur c) eqn:E'; [apply IH |].
      by destruct (forallb str_null (cs ++ cs2)).
Qed.


Lemma resolve_app_sep_found sigma h rest k e :
  h <> "" ->
  resolve cwd sigma (h +:+ String sep rest) = Found k e ->
  exists k' e', resolve cwd sigma h = Found k' e'.
Proof.
  intros Hh. unfold resolve.
  rewrite str_null_app, startswith_sep_app by done.
  apply str_null_false in Hh as ->. simpl.
  rewrite components_app_sep. apply walk_app_found.
Qed.











(** ** Running the copies a second time *)





Lemma copy_dirs src dst sigma sigma' r :
  copy cwd src dst sigma = (sigma', r) -> dirs_within sigma' sigma.
Proof.
  destruct r as [r|e].
  - intros (_ & ks & ms & data & kd & _ & _ & Ht & _ & ->)%copy_ok_inv k m.
    destruct (decide (kd = k)) as [<- | Hne].
    + by rewrite lookup_insert_eq.
    + by rewrite lookup_insert_ne.
  - by intros [-> _]%copy_raise_inv k m.
Qed.

Lemma copy_all_dirs plan sigma sigma' r :
  copy_all cwd plan sigma = (sigma', r) -> dirs_within sigma' sigma.
Proof.
  revert sigma. induction plan as [|[src dst] plan IH]; intros sigma; simpl.
  - by intros [= <- <-] k m.
  - unfold bind.
    destruct (copy cwd src dst sigma) as [s1 [r1|e1]] eqn:E1;
      apply copy_dirs in E1.
    + intros H%IH k m Hk. by apply E1, H.
    + by intros [= <- <-].
Qed.




(** ** The claims *)



(** C3. After the main artifact is copied from [main_src_path] to
    [dest_dir/main_dest_name], each [f] of [extra_files] is copied, in the
    order of the command line, from [source_dir/f] to [dest_dir/f],
    overwriting an existing destination file: the trace of a run is
    [makedirs] followed by a prefix of these copies in that order, and all of
    them when the run returns, the file system then being the result of the
    copies made one after the other; a copy that returns on a destination
    that is a regular file leaves the mode and data of the source there. *)
Theorem C3_copies_in_order prog s d m n extras sigma st r :
  run cwd (prog :: s :: d :: m :: n :: extras) sigma = (st, r) ->
  let events :=
    EvCopy m (posixpath.join d n)
      :: map (fun f => EvCopy (posixpath.join s f) (posixpath.join d f)) extras
  in
  (exists j, st_trace st = EvMakedirs d :: take j events)
  /\ (r = Ok tt ->
      st_trace st = EvMakedirs d :: events
      /\ exists sigma1,
          makedirs cwd d true sigma = (sigma1, Ok tt)
          /\ copy_all cwd (copy_plan s d m n extras) sigma1 = (st_fs st, Ok tt))
  /\ (forall src dst tau tau' r' kd md data0,
        copy cwd src dst tau = (tau', Ok r') ->
        resolve cwd tau dst = Found kd (File md data0) ->
        exists ks ms data,
          resolve cwd tau src = Found ks (File ms data)
          /\ tau' !! kd = Some (File ms data)).
Proof.
  intros Hrun events. rewrite run_five in Hrun.
  assert (events = copy_events (copy_plan s d m n extras)) as Hev.
  { by rewrite copy_events_plan. }
  split_and!.
  - destruct (makedirs cwd d true sigma) as [s1 [[]|e]].
    + destruct (exec_plan_spec (copy_plan s d m n extras) s1 [EvMakedirs d])
        as [(s' & Hc & He) | (dn & sd & rest & sk & e & Hp & Hd & Hf & Hc & He)];
        rewrite He in Hrun; injection Hrun as <- <-; simpl.
      * exists (length events). by rewrite take_ge, Hev by lia.
      * exists (S (length dn)). rewrite Hev, Hp. f_equal.
        apply copy_events_take.
    + injection Hrun as <- <-. exists 0. done.
  - intros ->. destruct (makedirs cwd d true sigma) as [s1 [[]|e]] eqn:Hmk;
      [| done].
    destruct (exec_plan_spec (copy_plan s d m n extras) s1 [EvMakedirs d])
      as [(s' & Hc & He) | (dn & sd & rest & sk & e & Hp & Hd & Hf & Hc & He)];
      rewrite He in Hrun; [| done].
    injection Hrun as <-. simpl. split; [by rewrite Hev |]. by exists s1.
  - intros src dst tau tau' r' kd md data0 Hc Hd.
    by destruct (copy_overwrites _ _ _ _ _ _ _ _ Hc Hd) as [_ ?].
Qed.


(** C5, amended.  When [dest_dir] exists and [main_dest_name] and the
    [extra_files] are plain names, [makedirs] returns without a change, and
    every entry that is not [dest_dir/g] or below it, for one of these names
    [g], is after the run what it was before, whether the run returns or
    raises. *)
Theorem C5_unrelated_untouched prog s d m n extras sigma D md st r k :
  resolve cwd sigma d = Found D (Dir md) ->
  Forall (fun g => plain_name g = true) (n :: extras) ->
  run cwd (prog :: s :: d :: m :: n :: extras) sigma = (st, r) ->
  (forall g, g ∈ n :: extras -> ~ child D g `prefix_of` k) ->
  makedirs cwd d true sigma = (sigma, Ok tt)
  /\ st_fs st !! k = sigma !! k.
Proof.
  intros Hd Hpl Hrun Hk.
  pose proof (makedirs_isdir_noop _ _ _ _ Hd) as Hmk.
  split; [done |].
  rewrite run_five, Hmk in Hrun. apply exec_plan_fs in Hrun.
  rewrite plan_of_items in Hrun.
  eapply copy_all_frame; [done | | done |]; by rewrite items_of_names.
Qed.


(** C7. With no extra file the two steps are still made, and the run
    succeeds when they do: [dest_dir] is created by [makedirs], the main
    artifact is copied to [dest_dir/main_dest_name], where the mode and data
    of [main_src_path] then are, and the exit status is 0. *)
Theorem C7_no_extra_files prog s d m n sigma sigma1 sigma2 r' :
  makedirs cwd d true sigma = (sigma1, Ok tt) ->
  copy cwd m (posixpath.join d n) sigma1 = (sigma2, Ok r') ->
  run cwd [prog; s; d; m; n] sigma
  = (State sigma2 [EvMakedirs d; EvCopy m (posixpath.join d n)], Ok tt)
  /\ exit_status (run cwd [prog; s; d; m; n] sigma).2 = 0%Z
  /\ exists ks ms data kd,
      resolve_existing cwd sigma1 m = Found ks (File ms data)
      /\ open_target cwd sigma1 r' = inr kd
      /\ sigma2 !! kd = Some (File ms data).
Proof.
  intros Hmk Hcp.
  assert (run cwd [prog; s; d; m; n] sigma
          = (State sigma2 [EvMakedirs d; EvCopy m (posixpath.join d n)], Ok tt))
    as Hrun.
  { rewrite run_five, Hmk. simpl. unfold bind. rewrite shutil_copy_eq, Hcp.
    done. }
  rewrite Hrun. split_and!; [done | done |].
  apply copy_ok_inv in Hcp as (-> & ks & ms & data & kd & Hs & _ & Ht & _ & ->).
  exists ks, ms, data, kd. split_and!; [done | done |].
  apply lookup_insert_eq.
Qed.

(** C8. With no extra file [source_dir] is not used: the run is the same
    whatever the first argument is, and it succeeds when [makedirs] and the
    copy of the main artifact do, whether [source_dir] exists or not. *)
Theorem C8_source_dir_unused prog s d m n sigma :
  (forall s', run cwd [prog; s; d; m; n] sigma = run cwd [prog; s'; d; m; n] sigma)
  /\ (forall sigma1 sigma2 r',
        makedirs cwd d true sigma = (sigma1, Ok tt) ->
        copy cwd m (posixpath.join d n) sigma1 = (sigma2, Ok r') ->
        (run cwd [prog; s; d; m; n] sigma).2 = Ok tt).
Proof.
  split.
  - intros s'. by rewrite !run_five.
  - intros sigma1 sigma2 r' Hmk Hcp.
    rewrite run_five, Hmk. simpl. unfold bind. by rewrite shutil_copy_eq, Hcp.
Qed.


(** C10. When the source and the destination of a copy of the run are one
    regular file, the run ends with exit status 1; the copy of that pair,
    when the run gets to it, raises [SameFileError]. *)
Theorem C10_same_file_fails prog s d m n extras sigma st r a b :
  ((a, b) = (m, posixpath.join d n)
   \/ exists f, f ∈ extras /\ (a, b) = (posixpath.join s f, posixpath.join d f)) ->
  same_regular_file cwd sigma a b ->
  run cwd (prog :: s :: d :: m :: n :: extras) sigma = (st, r) ->
  exit_status r = 1%Z
  /\ exists e, r = Raise e
               /\ (EvCopy a b ∈ st_trace st -> e = SameFileError a b).
Proof.
  intros Hpair Hsame Hrun. rewrite run_five in Hrun.
  assert ((a, b) ∈ copy_plan s d m n extras) as Hin.
  { unfold copy_plan. apply elem_of_cons.
    destruct Hpair as [-> | (f & Hf & ->)]; [by left | right].
    apply list_elem_of_fmap. by exists f. }
  destruct (makedirs cwd d true sigma) as [s1 [[]|e1]] eqn:Hmk.
  - assert (same_regular_file cwd s1 a b) as Hsame1.
    { eapply same_regular_file_extends; [| done].
      apply subseteq_extends. by eapply makedirs_subseteq. }
    destruct (exec_plan_spec (copy_plan s d m n extras) s1 [EvMakedirs d])
      as [(s' & Hc & He) | (dn & [src dst] & rest & sk & e0 & Hp & Hd & Hf & Hc & He)];
      rewrite He in Hrun; injection Hrun as <- <-; simpl.
    + by destruct (copy_all_ok_not_same _ _ _ _ _ Hc Hin).
    + split; [done |]. exists e0. split; [done |].
      intros [[=] | Hev]%elem_of_cons.
      rewrite copy_events_app in Hev. apply elem_of_app in Hev as [Hev | Hev].
      * unfold copy_events in Hev. apply list_elem_of_fmap in Hev
          as ([a' b'] & [= -> ->] & Hin').
        by destruct (copy_all_ok_not_same _ _ _ _ _ Hd Hin').
      * apply list_elem_of_singleton in Hev. injection Hev as -> ->.
        simpl in Hf.
        assert (same_regular_file cwd sk src dst) as Hsamek.
        { eapply same_regular_file_extends; [| done].
          by eapply copy_all_extends. }
        rewrite (copy_same_file _ _ _ Hsamek) in Hf. by injection Hf as <-.
  - injection Hrun as <- <-. simpl. split; [done |]. exists e1.
    split; [done |].
    intros [[=] | Hev%elem_of_nil]%elem_of_cons. done.
Qed.

(** ** Further properties of the script *)

(** *** What a run keeps *)

Lemma makedirs_mkdir_new name ok sigma sigma' r k e :
  makedirs_mkdir cwd name ok sigma = (sigma', r) ->
  sigma' !! k = Some e ->
  sigma !! k = Some e \/ (sigma !! k = None /\ e = Dir new_dir_mode).
Proof.
  unfold makedirs_mkdir, try_except, sys_mkdir, bind.
  destruct (resolve cwd sigma name) as [k0 e0|d m n|e0] eqn:E; simpl;
    rewrite ?path_isdir_eq.
  - destruct (negb ok || negb (is_dir cwd sigma name)); intros [= <- <-]; eauto.
  - destruct (writable m); simpl; rewrite ?path_isdir_eq.
    + intros [= <- <-].
      apply resolve_Missing_lookup in E as [_ E].
      destruct (decide (child d n = k)) as [<- | Hne].
      * rewrite lookup_insert_eq. intros [= <-]. by right.
      * rewrite lookup_insert_ne by done. eauto.
    + destruct (negb ok || negb (is_dir cwd sigma name)); intros [= <- <-];
        eauto.
  - destruct (negb ok || negb (is_dir cwd sigma name)); intros [= <- <-]; eauto.
Qed.

Lemma new_entry_trans (s0 s1 : fs) k e :
  s0 ⊆ s1 ->
  (forall e1, s1 !! k = Some e1 ->
     s0 !! k = Some e1 \/ (s0 !! k = None /\ e1 = Dir new_dir_mode)) ->
  s1 !! k = Some e \/ (s1 !! k = None /\ e = Dir new_dir_mode) ->
  s0 !! k = Some e \/ (s0 !! k = None /\ e = Dir new_dir_mode).
Proof.
  intros Hsub H01 [H1 | [H1 ->]]; [by apply H01 |].
  right. split; [| done].
  destruct (s0 !! k) as [e0|] eqn:E0; [| done].
  eapply lookup_weaken in E0; [| done]. congruence.
Qed.

(** [makedirs] changes no entry; what it adds are directories. *)
Lemma makedirs_rec_new fuel name ok sigma sigma' r k e :
  makedirs_rec cwd fuel name ok sigma = (sigma', r) ->
  sigma' !! k = Some e ->
  sigma !! k = Some e \/ (sigma !! k = None /\ e = Dir new_dir_mode).
Proof.
  revert name sigma sigma' r e.
  induction fuel as [|fuel IH]; intros name sigma sigma' r e; simpl.
  { intros [= <- <-]. eauto. }
  destruct (makedirs_split name) as [h t].
  destruct (negb (str_null h) && negb (str_null t));
    [| apply makedirs_mkdir_new].
  unfold bind at 1. rewrite path_exists_eq.
  destruct (exists_path cwd sigma h); simpl; [apply makedirs_mkdir_new |].
  unfold bind, try_except.
  destruct (makedirs_rec cwd fuel h ok sigma) as [s1 [[]|e1]] eqn:E1;
    pose proof (makedirs_rec_subseteq _ _ _ _ _ _ E1) as Hsub.
  - destruct (bool_decide (t = posixpath.curdir)).
    + intros [= <- <-]. by eapply IH.
    + intros Hmk Hk. apply (new_entry_trans sigma s1 k e Hsub).
      * intros e0. by eapply IH.
      * by eapply makedirs_mkdir_new.
  - destruct (is_FileExistsError e1); simpl.
    + destruct (bool_decide (t = posixpath.curdir)).
      * intros [= <- <-]. by eapply IH.
      * intros Hmk Hk. apply (new_entry_trans sigma s1 k e Hsub).
        -- intros e0. by eapply IH.
        -- by eapply makedirs_mkdir_new.
    + intros [= <- <-]. by eapply IH.
Qed.

Lemma makedirs_new name ok sigma sigma' r k e :
  makedirs cwd name ok sigma = (sigma', r) ->
  sigma' !! k = Some e ->
  sigma !! k = Some e \/ (sigma !! k = None /\ e = Dir new_dir_mode).
Proof. apply makedirs_rec_new. Qed.

(** The file system a run ends on: what [makedirs] left, then the copies. *)
Lemma run_fs argv sigma :
  st_fs (run cwd argv sigma).1
  = match argv with
    | prog :: s :: d :: rest =>
        match makedirs cwd d true sigma, rest with
        | (sigma1, Ok _), m :: n :: extras =>
            (copy_all cwd (copy_plan s d m n extras) sigma1).1
        | (sigma1, _), _ => sigma1
        end
    | _ => sigma
    end.
Proof.
  destruct argv as [|prog [|s [|d rest]]]; try done.
  destruct rest as [|m [|n extras]].
  - rewrite run_short by (simpl; lia). simpl.
    by destruct (makedirs cwd d true sigma) as [s1 [[]|e]].
  - rewrite run_short by (simpl; lia). simpl.
    by destruct (makedirs cwd d true sigma) as [s1 [[]|e]].
  - rewrite run_five.
    destruct (makedirs cwd d true sigma) as [s1 [[]|e]]; [| done].
    destruct (exec_plan cwd (copy_plan s d m n extras)
                (State s1 [EvMakedirs d])) as [st r] eqn:E.
    apply exec_plan_fs in E. by rewrite E.
Qed.

(** X1. Whatever the arguments and however the run ends, every entry that
    was there is still there, a directory with its mode and a regular file as
    a regular file; and a directory that was not there is one that
    [makedirs(dest_dir)] has made. *)
Theorem run_keeps_entries argv sigma :
  extends sigma (st_fs (run cwd argv sigma).1)
  /\ forall k m,
      st_fs (run cwd argv sigma).1 !! k = Some (Dir m) ->
      sigma !! k = Some (Dir m)
      \/ (sigma !! k = None
          /\ m = new_dir_mode
          /\ exists d, argv !! 2 = Some d
                       /\ (makedirs cwd d true sigma).1 !! k = Some (Dir m)).
Proof.
  rewrite run_fs.
  destruct argv as [|prog [|s [|d rest]]];
    try (split; [apply extends_refl | by eauto]).
  destruct (makedirs cwd d true sigma) as [s1 r1] eqn:Hmk.
  pose proof (makedirs_subseteq _ _ _ _ _ Hmk) as Hsub.
  assert (forall k m, s1 !! k = Some (Dir m) ->
            sigma !! k = Some (Dir m)
            \/ (sigma !! k = None
                /\ m = new_dir_mode
                /\ exists d0, (prog :: s :: d :: rest) !! 2 = Some d0
                     /\ (makedirs cwd d0 true sigma).1 !! k = Some (Dir m)))
    as Hdirs.
  { intros k m Hk.
    destruct (makedirs_new _ _ _ _ _ _ _ Hmk Hk) as [? | [? [= ->]]];
      [by left | right].
    split_and!; [done | done |]. exists d. by rewrite Hmk. }
  assert (forall tau, extends s1 tau -> dirs_within tau s1 ->
            extends sigma tau
            /\ forall k m, tau !! k = Some (Dir m) ->
                 sigma !! k = Some (Dir m)
                 \/ (sigma !! k = None
                     /\ m = new_dir_mode
                     /\ exists d0, (prog :: s :: d :: rest) !! 2 = Some d0
                          /\ (makedirs cwd d0 true sigma).1 !! k
                             = Some (Dir m))) as Hgen.
  { intros tau Hext Hin. split.
    - eapply extends_trans; [by apply subseteq_extends | done].
    - intros k m Hk. by apply Hdirs, Hin. }
  destruct r1 as [[]|e], rest as [|m [|n extras]];
    try (apply Hgen; [apply extends_refl | by intros ? ?]).
  destruct (copy_all cwd (copy_plan s d m n extras) s1) as [tau r] eqn:Hc.
  apply Hgen; [by eapply copy_all_extends | by eapply copy_all_dirs].
Qed.

(** Copies write what they have read: a regular file after them has the mode
    and data of one before them. *)
Lemma copy_all_provenance plan sigma sigma' r k m data :
  copy_all cwd plan sigma = (sigma', r) ->
  sigma' !! k = Some (File m data) ->
  exists k0, sigma !! k0 = Some (File m data).
Proof.
  revert sigma. induction plan as [|[src dst] plan IH]; intros sigma; simpl.
  - intros [= <- <-]. eauto.
  - unfold bind.
    destruct (copy cwd src dst sigma) as [s1 [r1|e1]] eqn:E1.
    + intros Hall Hk. destruct (IH _ Hall Hk) as [k1 Hk1].
      apply copy_ok_inv in E1
        as (_ & ks & ms & ds & kd & Hs & _ & _ & _ & ->).
      apply resolve_existing_file_inv in Hs as [Hs%resolve_lookup _].
      destruct (decide (kd = k1)) as [<- | Hne].
      * rewrite lookup_insert_eq in Hk1. injection Hk1 as <- <-. eauto.
      * rewrite lookup_insert_ne in Hk1 by done. eauto.
    + apply copy_raise_inv in E1 as [-> _]. intros [= <- <-]. eauto.
Qed.

(** X2. The run writes nothing of its own: whatever the arguments and
    however it ends, a regular file after the run has the mode and the data
    of a regular file that was there before the run. *)
Theorem run_copies_only argv sigma k m data :
  st_fs (run cwd argv sigma).1 !! k = Some (File m data) ->
  exists k0, sigma !! k0 = Some (File m data).
Proof.
  rewrite run_fs.
  destruct argv as [|prog [|s [|d rest]]]; try by eauto.
  destruct (makedirs cwd d true sigma) as [s1 r1] eqn:Hmk.
  assert (forall k1, s1 !! k1 = Some (File m data) ->
                     exists k0, sigma !! k0 = Some (File m data)) as Hfiles.
  { intros k1 Hk1.
    destruct (makedirs_new _ _ _ _ _ _ _ Hmk Hk1) as [? | [_ [=]]]. eauto. }
  destruct r1 as [[]|e], rest as [|m0 [|n extras]]; try apply Hfiles.
  destruct (copy_all cwd (copy_plan s d m0 n extras) s1) as [tau r] eqn:Hc.
  simpl. intros Hk.
  destruct (copy_all_provenance _ _ _ _ _ _ _ Hc Hk) as [k1 Hk1]. eauto.
Qed.

(** *** Extra files one after the other *)

Lemma exec_plan_app p1 p2 st :
  exec_plan cwd (p1 ++ p2) st
  = match exec_plan cwd p1 st with
    | (st1, Ok _) => exec_plan cwd p2 st1
    | (st1, Raise e) => (st1, Raise e)
    end.
Proof.
  revert st. induction p1 as [|[src dst] p1 IH]; intros st; simpl; [done |].
  unfold bind.
  destruct (shutil_copy cwd src dst st) as [st1 [r1|e1]]; [apply IH | done].
Qed.

(** X3. The extra files are handled one after the other, each on what the
    ones before it left: the run on [extras1 ++ extras2] is the run on
    [extras1] followed, when that returns, by the copies of [extras2]; when
    the run on [extras1] raises, the names after it change nothing. *)
Theorem run_extras_app prog s d m n extras1 extras2 sigma :
  run cwd (prog :: s :: d :: m :: n :: extras1 ++ extras2) sigma
  = match run cwd (prog :: s :: d :: m :: n :: extras1) sigma with
    | (st1, Ok _) =>
        exec_plan cwd
          (map (fun f => (posixpath.join s f, posixpath.join d f)) extras2)
          st1
    | (st1, Raise e) => (st1, Raise e)
    end.
Proof.
  rewrite !run_five.
  destruct (makedirs cwd d true sigma) as [s1 [[]|e]]; [| done].
  unfold copy_plan. rewrite map_app, app_comm_cons.
  by rewrite exec_plan_app.
Qed.

(** *** A [dest_dir] that cannot be used *)

Lemma makedirs_empty sigma :
  makedirs cwd "" true sigma = (sigma, Raise (OSError ENOENT "")).
Proof. reflexivity. Qed.

(** X4. An empty [dest_dir] is an error: whatever the other arguments,
    the run ends on [FileNotFoundError] for the empty name, with nothing
    changed and no copy attempted. *)
Theorem run_empty_dest_dir prog s rest sigma :
  run cwd (prog :: s :: "" :: rest) sigma
  = (State sigma [EvMakedirs ""], Raise (OSError ENOENT "")).
Proof.
  destruct rest as [|m [|n extras]].
  - rewrite run_short by (simpl; lia). reflexivity.
  - rewrite run_short by (simpl; lia). reflexivity.
  - by rewrite run_five, makedirs_empty.
Qed.

(** Before a last name that is not empty, a pathname that resolves goes
    through a directory. *)
Lemma walk_snoc_found sigma cur cs t k e :
  t <> "" ->
  walk sigma cur (cs ++ [t]) = Found k e ->
  exists k' m', walk sigma cur cs = Found k' (Dir m').
Proof.
  intros Ht. revert cur. induction cs as [|c cs IH]; intros cur.
  - simpl. destruct (sigma !! cur) as [[m' data|m']|] eqn:E; [| by eauto | done].
    apply str_null_false in Ht as ->. done.
  - simpl. destruct (sigma !! cur) as [[m' data|m']|] eqn:E; [| | done].
    + rewrite forallb_app. simpl. apply str_null_false in Ht as ->.
      by rewrite !andb_false_r.
    + destruct (is_dot c); [apply IH |].
      destruct (bool_decide _); [apply IH |].
      destruct (sigma !! child cur c) eqn:E'; [apply IH |].
      by destruct (forallb str_null (cs ++ [t])).
Qed.

Lemma resolve_found_split_head sigma p k e :
  resolve cwd sigma p = Found k e ->
  (posixpath.split p).2 <> "" ->
  (posixpath.split p).1 <> "" ->
  exists k' m', resolve cwd sigma (posixpath.split p).1 = Found k' (Dir m').
Proof.
  intros Hr Ht Hh.
  destruct (split_spec p)
    as (Hs & [(_ & Hn & _) | [(j & Hj & Hp) | (rest & Hne & _ & Hp & j & Hrest)]]).
  - done.
  - set (h := (posixpath.split p).1) in *.
    set (t := (posixpath.split p).2) in *. clearbody h t. subst p h.
    rewrite resolve_abs in Hr by done.
    rewrite components_seps_app, (components_no_sep _ Hs) in Hr.
    apply walk_snoc_found in Hr as (k' & m' & Hr); [| done].
    change (replicate (S j) "") with ("" :: replicate j "") in Hr.
    apply walk_cons_dir in Hr as [m0 Hroot].
    exists [], m0. by apply resolve_seps.
  - set (h := (posixpath.split p).1) in *.
    set (t := (posixpath.split p).2) in *. clearbody h t. subst p rest.
    unfold resolve in *.
    rewrite str_null_app, startswith_sep_app in Hr by done.
    apply str_null_false in Hne as Hne'. rewrite Hne' in *.
    rewrite andb_false_l in Hr.
    rewrite components_app_sep, components_seps_app in Hr.
    rewrite (components_no_sep _ Hs), !app_assoc in Hr.
    apply walk_snoc_found in Hr as (k1 & m1 & Hr); [| done].
    apply walk_app_inv in Hr as (k' & m' & Hw & _). eauto.
Qed.

(** The head [makedirs] recurses on exists when the pathname resolves. *)
Lemma makedirs_split_head_found sigma p k e :
  resolve cwd sigma p = Found k e ->
  (makedirs_split p).1 <> "" ->
  (makedirs_split p).2 <> "" ->
  exists_path cwd sigma (makedirs_split p).1 = true.
Proof.
  intros Hr. unfold makedirs_split.
  assert (forall q k0 e0, resolve cwd sigma q = Found k0 e0 ->
            (posixpath.split q).1 <> "" -> (posixpath.split q).2 <> "" ->
            exists_path cwd sigma (posixpath.split q).1 = true) as Hgen.
  { intros q k0 e0 Hq Hh Ht.
    destruct (resolve_found_split_head _ _ _ _ Hq Ht Hh) as (k' & m' & Hr').
    unfold exists_path. by rewrite (resolve_existing_dir _ _ _ _ Hr'). }
  destruct (posixpath.split p) as [h t] eqn:Hsp.
  destruct (str_null t) eqn:Hnt.
  - apply str_null_true in Hnt as ->.
    assert (exists k0 e0, resolve cwd sigma h = Found k0 e0) as (k0 & e0 & Hh).
    { destruct (split_spec p)
        as (_ & [(_ & Hn & Hp) | [(j & Hj & Hp) | (rest & Hne & _ & Hp & _)]]);
        rewrite Hsp in *; simpl in *.
      - subst. done.
      - rewrite app_nil_r_str in Hp. subst p. eauto.
      - rewrite Hp in Hr. by eapply resolve_app_sep_found. }
    by eapply Hgen.
  - pose proof (Hgen p k e Hr) as H. by rewrite Hsp in H.
Qed.

(** [makedirs] on a regular file. *)
Lemma makedirs_file d sigma k m data :
  resolve cwd sigma d = Found k (File m data) ->
  makedirs cwd d true sigma = (sigma, Raise (OSError EEXIST d)).
Proof.
  intros Hr. unfold makedirs. simpl.
  pose proof (makedirs_split_head_found sigma d _ _ Hr) as Hex.
  assert (makedirs_mkdir cwd d true sigma = (sigma, Raise (OSError EEXIST d)))
    as Hmk.
  { by rewrite makedirs_mkdir_eq, Hr. }
  destruct (makedirs_split d) as [h t]. simpl in Hex.
  destruct (str_null h) eqn:Hh; simpl; [done |].
  destruct (str_null t) eqn:Ht; simpl; [done |].
  unfold bind. rewrite path_exists_eq, Hex; [done | |]; by apply str_null_false.
Qed.

(** X5. A [dest_dir] that is a regular file is an error, [exist_ok] or
    not: whatever the other arguments, the run ends on [FileExistsError]
    for [dest_dir], with nothing changed and no copy attempted. *)
Theorem run_dest_dir_is_file prog s d rest sigma k m data :
  resolve cwd sigma d = Found k (File m data) ->
  run cwd (prog :: s :: d :: rest) sigma
  = (State sigma [EvMakedirs d], Raise (OSError EEXIST d)).
Proof.
  intros Hmk%makedirs_file.
  destruct rest as [|m0 [|n extras]].
  - rewrite run_short by (simpl; lia). simpl. by rewrite Hmk.
  - rewrite run_short by (simpl; lia). simpl. by rewrite Hmk.
  - by rewrite run_five, Hmk.
Qed.




(** *** Copies that cannot be made *)

Lemma same_file_not_found sigma src dst :
  (forall k e, resolve_existing cwd sigma src <> Found k e) ->
  same_file cwd sigma src dst = false.
Proof.
  intros Hnf. unfold same_file.
  destruct (resolve_existing cwd sigma src) as [k e| |] eqn:E; try done.
  by destruct (Hnf k e).
Qed.

(** The run when the first copy raises. *)
Lemma run_first_copy_raises prog s d m n extras sigma sigma1 e :
  makedirs cwd d true sigma = (sigma1, Ok tt) ->
  copy cwd m (posixpath.join d n) sigma1 = (sigma1, Raise e) ->
  run cwd (prog :: s :: d :: m :: n :: extras) sigma
  = (State sigma1 [EvMakedirs d; EvCopy m (posixpath.join d n)], Raise e).
Proof.
  intros Hmk Hcp. rewrite run_five, Hmk. simpl. unfold bind.
  by rewrite shutil_copy_eq, Hcp.
Qed.

(** X7. A [main_src_path] that does not exist is found out after
    [dest_dir] has been made: the run ends on [FileNotFoundError] for
    [main_src_path], the file system being what [makedirs] left, the
    destination neither created nor emptied. *)
Theorem run_main_source_missing prog s d m n extras sigma sigma1 :
  makedirs cwd d true sigma = (sigma1, Ok tt) ->
  (exists dd mm nn, resolve_existing cwd sigma1 m = Missing dd mm nn)
  \/ resolve_existing cwd sigma1 m = Fail ENOENT ->
  run cwd (prog :: s :: d :: m :: n :: extras) sigma
  = (State sigma1 [EvMakedirs d; EvCopy m (posixpath.join d n)],
     Raise (OSError ENOENT m)).
Proof.
  intros Hmk Hm. apply run_first_copy_raises; [done |].
  rewrite copy_eq. unfold copy_result.
  rewrite same_file_not_found.
  2:{ intros k e. destruct Hm as [(dd & mm & nn & ->) | ->]; done. }
  by destruct Hm as [(dd & mm & nn & ->) | ->].
Qed.

(** X8. A destination that is a regular file without write permission is
    not replaced: the run ends on [PermissionError] for the destination,
    the file system being what [makedirs] left. *)
Theorem run_destination_read_only prog s d m n extras sigma sigma1
    ks ms data kd md data0 :
  makedirs cwd d true sigma = (sigma1, Ok tt) ->
  resolve_existing cwd sigma1 m = Found ks (File ms data) ->
  readable ms = true ->
  resolve_existing cwd sigma1 (posixpath.join d n) = Found kd (File md data0) ->
  writable md = false ->
  ks <> kd ->
  run cwd (prog :: s :: d :: m :: n :: extras) sigma
  = (State sigma1 [EvMakedirs d; EvCopy m (posixpath.join d n)],
     Raise (OSError EACCES (posixpath.join d n))).
Proof.
  intros Hmk Hs Hrd Hd Hw Hne. apply run_first_copy_raises; [done |].
  rewrite copy_eq. unfold copy_result, copy_dest, is_dir. rewrite Hd.
  unfold same_file. rewrite Hs, Hd, bool_decide_eq_false_2 by done.
  rewrite Hrd. unfold open_target.
  apply resolve_existing_file_inv in Hd as [-> ->]. by rewrite Hw.
Qed.


(** *** Names that cannot be copied *)

(** Each copy of a plan that returned was made, on what the copies before
    it left. *)
Lemma copy_all_ok_each plan sigma sigma' a b :
  copy_all cwd plan sigma = (sigma', Ok tt) ->
  (a, b) ∈ plan ->
  exists tau tau' r, extends sigma tau /\ copy cwd a b tau = (tau', Ok r).
Proof.
  revert sigma. induction plan as [|[src dst] plan IH]; intros sigma.
  - intros _ Hin. by apply elem_of_nil in Hin.
  - simpl. unfold bind.
    destruct (copy cwd src dst sigma) as [s1 [r1|e1]] eqn:E1; [| done].
    intros Hall [[= -> ->] | Hin]%elem_of_cons.
    + exists sigma, s1, r1. split; [apply extends_refl | done].
    + destruct (IH _ Hall Hin) as (tau & tau' & r & Hext & Hcp).
      exists tau, tau', r. split; [| done].
      eapply extends_trans; [by eapply copy_extends | done].
Qed.

(** The source of a copy that returns is not empty and does not end in a
    separator. *)
Lemma copy_ok_source_name src dst sigma sigma' r :
  copy cwd src dst sigma = (sigma', Ok r) ->
  src <> "" /\ endswith_sep src = false.
Proof.
  intros (_ & ks & ms & data & kd & Hs & _)%copy_ok_inv.
  apply resolve_existing_file_inv in Hs as [Hr He]. split; [| done].
  intros ->. done.
Qed.

Lemma join_endswith_sep s f :
  f = "" \/ endswith_sep f = true ->
  posixpath.join s f = "" \/ endswith_sep (posixpath.join s f) = true.
Proof.
  unfold posixpath.join. intros [-> | Hf].
  - simpl. destruct (str_null s) eqn:Hs; [by left | right].
    destruct (endswith_sep s) eqn:He; [by rewrite app_nil_r_str |].
    apply endswith_sep_app_sep.
  - right. assert (f <> "") as Hne by by intros ->.
    destruct (startswith_sep f || str_null s); [done |].
    destruct (endswith_sep s).
    + by rewrite endswith_sep_app.
    + rewrite endswith_sep_app by done. simpl. by destruct f.
Qed.

(** A run that returns has made every copy of its plan. *)
Lemma run_ok_each prog s d m n extras sigma a b :
  (run cwd (prog :: s :: d :: m :: n :: extras) sigma).2 = Ok tt ->
  (a, b) ∈ copy_plan s d m n extras ->
  exists tau tau' r, copy cwd a b tau = (tau', Ok r).
Proof.
  rewrite run_five.
  destruct (makedirs cwd d true sigma) as [s1 [[]|e]]; [| done].
  destruct (exec_plan cwd (copy_plan s d m n extras) (State s1 [EvMakedirs d]))
    as [st r] eqn:E.
  apply exec_plan_fs in E. simpl. intros -> Hin.
  destruct (copy_all_ok_each _ _ _ _ _ E Hin) as (tau & tau' & r & _ & Hcp).
  eauto.
Qed.

Lemma exit_status_not_ok {A} (r : outcome A) :
  (forall a, r <> Ok a) -> exit_status r = 1%Z.
Proof. destruct r as [a|e]; [intros H; by destruct (H a) | done]. Qed.

(** X10. A source is the name of a regular file: when [main_src_path], or
    one of the [extra_files], is empty or ends in a separator, the run does
    not exit with status 0, whatever the file system is. *)
Theorem run_source_not_a_file_name prog s d m n extras sigma :
  (m = "" \/ endswith_sep m = true)
  \/ (exists f, f ∈ extras /\ (f = "" \/ endswith_sep f = true)) ->
  exit_status (run cwd (prog :: s :: d :: m :: n :: extras) sigma).2 = 1%Z.
Proof.
  intros Hbad. apply exit_status_not_ok. intros [] Hok.
  assert (exists a b, (a, b) ∈ copy_plan s d m n extras
                      /\ (a = "" \/ endswith_sep a = true))
    as (a & b & Hin & Ha).
  { destruct Hbad as [Hm | (f & Hf & Hbad)].
    - exists m, (posixpath.join d n). split; [| done].
      apply elem_of_cons. by left.
    - exists (posixpath.join s f), (posixpath.join d f).
      split; [| by apply join_endswith_sep].
      apply elem_of_cons. right. apply list_elem_of_fmap. by exists f. }
  destruct (run_ok_each _ _ _ _ _ _ _ _ _ Hok Hin) as (tau & tau' & r & Hcp).
  apply copy_ok_source_name in Hcp as [Hne He].
  destruct Ha; congruence.
Qed.

(** X11. An extra file given by an absolute pathname is its own
    destination, [os.path.join] dropping the directory before it: the run
    does not exit with status 0, whatever the file system is. *)
Theorem run_absolute_extra_file prog s d m n extras sigma f :
  f ∈ extras ->
  startswith_sep f = true ->
  posixpath.join s f = f
  /\ posixpath.join d f = f
  /\ exit_status (run cwd (prog :: s :: d :: m :: n :: extras) sigma).2 = 1%Z.
Proof.
  intros Hf Habs.
  assert (forall x, posixpath.join x f = f) as Hj.
  { intros x. unfold posixpath.join. by rewrite Habs. }
  split_and!; [done | done |].
  apply exit_status_not_ok. intros [] Hok.
  assert ((f, f) ∈ copy_plan s d m n extras) as Hin.
  { apply elem_of_cons. right. apply list_elem_of_fmap. exists f.
    by rewrite !Hj. }
  destruct (run_ok_each _ _ _ _ _ _ _ _ _ Hok Hin) as (tau & tau' & r & Hcp).
  pose proof Hcp as (_ & ks & ms & data & kd & Hs & _)%copy_ok_inv.
  rewrite copy_same_file in Hcp; [done |].
  exists ks. split; eauto.
Qed.

(** *** Separators after the directories *)

Lemma join_app_sep x f :
  x <> "" -> endswith_sep x = false ->
  posixpath.join (x +:+ String sep "") f = posixpath.join x f.
Proof.
  intros Hx He. unfold posixpath.join.
  rewrite str_null_app, endswith_sep_app_sep, He.
  apply str_null_false in Hx as ->. simpl.
  destruct (startswith_sep f); simpl; [done |].
  by rewrite app_assoc_str.
Qed.

(** X12. A separator after [source_dir] changes nothing: the run on
    [source_dir/] is the run on [source_dir], for a [source_dir] that is not
    empty. *)
Theorem run_source_dir_sep prog s rest sigma :
  s <> "" ->
  endswith_sep s = false ->
  run cwd (prog :: (s +:+ String sep "") :: rest) sigma
  = run cwd (prog :: s :: rest) sigma.
Proof.
  intros Hs He. destruct rest as [|d [|m [|n extras]]];
    try (rewrite !run_short by (simpl; lia); done).
  rewrite !run_five. unfold copy_plan.
  assert (map (fun f => (posixpath.join (s +:+ String sep "") f,
                         posixpath.join d f)) extras
          = map (fun f => (posixpath.join s f, posixpath.join d f)) extras)
    as ->; [| done].
  apply map_ext. intros f. by rewrite join_app_sep.
Qed.

(** Separators after a pathname do not change what it resolves to. *)
Lemma walk_snoc_empty sigma cur cs :
  walk sigma cur (cs ++ [""]) = walk sigma cur cs.
Proof.
  revert cur. induction cs as [|c cs IH]; intros cur; simpl.
  - by destruct (sigma !! cur) as [[m data|m]|].
  - destruct (sigma !! cur) as [[m data|m]|]; [| | done].
    + rewrite forallb_app. simpl. by rewrite andb_true_r.
    + destruct (is_dot c); [apply IH |].
      destruct (bool_decide _); [apply IH |].
      destruct (sigma !! child cur c); [apply IH |].
      rewrite forallb_app. simpl. by rewrite andb_true_r.
Qed.

Lemma resolve_sep sigma p :
  p <> "" -> resolve cwd sigma (p +:+ String sep "") = resolve cwd sigma p.
Proof.
  intros Hp. unfold resolve.
  rewrite str_null_app, startswith_sep_app by done.
  apply str_null_false in Hp as ->. simpl.
  rewrite components_app_sep. apply walk_snoc_empty.
Qed.

Lemma is_dir_sep sigma p :
  p <> "" -> is_dir cwd sigma (p +:+ String sep "") = is_dir cwd sigma p.
Proof.
  intros Hp. unfold is_dir, resolve_existing. rewrite resolve_sep by done.
  destruct (resolve cwd sigma p) as [k [m data|m]| |]; try done.
  rewrite endswith_sep_app_sep. by destruct (endswith_sep p).
Qed.







End Calls.

(** ** Absolute pathnames *)

Section Absolute.

Variables cwd cwd' : key.

Lemma resolve_absolute sigma p :
  startswith_sep p = true -> resolve cwd sigma p = resolve cwd' sigma p.
Proof. intros Hp. by rewrite !resolve_abs. Qed.

Lemma resolve_existing_absolute sigma p :
  startswith_sep p = true ->
  resolve_existing cwd sigma p = resolve_existing cwd' sigma p.
Proof. intros Hp. unfold resolve_existing. by rewrite resolve_absolute. Qed.

Lemma is_dir_absolute sigma p :
  startswith_sep p = true -> is_dir cwd sigma p = is_dir cwd' sigma p.
Proof. intros Hp. unfold is_dir. by rewrite resolve_existing_absolute. Qed.

Lemma exists_path_absolute sigma p :
  startswith_sep p = true -> exists_path cwd sigma p = exists_path cwd' sigma p.
Proof. intros Hp. unfold exists_path. by rewrite resolve_existing_absolute. Qed.

Lemma join_absolute x b :
  startswith_sep x = true -> startswith_sep (posixpath.join x b) = true.
Proof.
  intros Hx. assert (x <> "") as Hne by by intros ->.
  unfold posixpath.join. destruct (startswith_sep b) eqn:Hb; [done |].
  apply str_null_false in Hne as Hn. rewrite Hn. simpl.
  destruct (endswith_sep x); by rewrite startswith_sep_app.
Qed.

Lemma copy_absolute src dst sigma :
  startswith_sep src = true ->
  startswith_sep dst = true ->
  copy cwd src dst sigma = copy cwd' src dst sigma.
Proof.
  intros Hs Hd. rewrite !copy_eq. unfold copy_result, copy_dest.
  rewrite (is_dir_absolute sigma dst Hd).
  set (dst' := if is_dir cwd' sigma dst
               then posixpath.join dst (posixpath.basename src) else dst).
  assert (startswith_sep dst' = true) as Hd'.
  { unfold dst'. destruct (is_dir cwd' sigma dst); [| done].
    by apply join_absolute. }
  clearbody dst'. unfold same_file, open_target.
  rewrite (resolve_existing_absolute sigma src Hs).
  rewrite (resolve_existing_absolute sigma dst' Hd').
  rewrite (resolve_absolute sigma dst' Hd').
  by rewrite (exists_path_absolute sigma dst' Hd').
Qed.

Lemma split_head_absolute p :
  startswith_sep p = true ->
  (posixpath.split p).1 = "" \/ startswith_sep (posixpath.split p).1 = true.
Proof.
  intros Hp.
  destruct (split_spec p)
    as (_ & [(_ & Hn & _) | [(j & Hj & _) | (rest & Hne & _ & Hp' & _)]]).
  - by left.
  - right. by rewrite Hj.
  - right. rewrite Hp' in Hp. by rewrite startswith_sep_app in Hp.
Qed.

Lemma makedirs_split_absolute p :
  startswith_sep p = true ->
  (makedirs_split p).1 = "" \/ startswith_sep (makedirs_split p).1 = true.
Proof.
  intros Hp. unfold makedirs_split.
  pose proof (split_head_absolute p Hp) as H1.
  destruct (posixpath.split p) as [h t]. simpl in H1.
  destruct (str_null t); [| done].
  destruct H1 as [-> | Hh]; [by left | by apply split_head_absolute].
Qed.

Lemma makedirs_mkdir_absolute name ok sigma :
  startswith_sep name = true ->
  makedirs_mkdir cwd name ok sigma = makedirs_mkdir cwd' name ok sigma.
Proof.
  intros Hn. unfold makedirs_mkdir, try_except, sys_mkdir, bind.
  rewrite (resolve_absolute sigma name Hn).
  destruct (resolve cwd' sigma name) as [k e|d m n|e]; simpl;
    rewrite ?path_isdir_eq, ?(is_dir_absolute sigma name Hn); try done.
  destruct (writable m); simpl; [done |].
  by rewrite !path_isdir_eq, (is_dir_absolute sigma name Hn).
Qed.

Lemma makedirs_rec_absolute fuel name ok sigma :
  startswith_sep name = true ->
  makedirs_rec cwd fuel name ok sigma = makedirs_rec cwd' fuel name ok sigma.
Proof.
  revert name sigma. induction fuel as [|fuel IH]; intros name sigma Hn;
    [done |].
  simpl. pose proof (makedirs_split_absolute name Hn) as Hh.
  pose proof (makedirs_mkdir_absolute name ok sigma Hn) as Hmk.
  destruct (makedirs_split name) as [h t]. simpl in Hh.
  destruct (negb (str_null h) && negb (str_null t)) eqn:Hc; [| exact Hmk].
  apply andb_true_iff in Hc as [Hne%negb_true_iff%str_null_false _].
  destruct Hh as [-> | Hh]; [done |].
  unfold bind, try_except. rewrite !path_exists_eq.
  rewrite (exists_path_absolute sigma h Hh).
  destruct (exists_path cwd' sigma h); [exact Hmk |]. cbn [negb].
  rewrite (IH h sigma Hh).
  destruct (makedirs_rec cwd' fuel h ok sigma) as [s1 [[]|e]].
  - destruct (bool_decide (t = posixpath.curdir)); [done |].
    by apply makedirs_mkdir_absolute.
  - destruct (is_FileExistsError e); [| done]. unfold ret.
    destruct (bool_decide (t = posixpath.curdir)); [done |].
    by apply makedirs_mkdir_absolute.
Qed.

Lemma exec_plan_absolute plan st :
  Forall (fun sd => startswith_sep sd.1 = true /\ startswith_sep sd.2 = true)
    plan ->
  exec_plan cwd plan st = exec_plan cwd' plan st.
Proof.
  intros Hall. revert st.
  induction Hall as [|[src dst] plan [Hs Hd] _ IH]; intros [sigma tr]; [done |].
  simpl in *. unfold bind. rewrite !shutil_copy_eq, (copy_absolute _ _ _ Hs Hd).
  destruct (copy cwd' src dst sigma) as [s1 [r1|e1]]; [apply IH | done].
Qed.

(** X14. With [source_dir], [dest_dir] and [main_src_path] given by
    absolute pathnames the working directory plays no part: the run is the
    same from any of them. *)
Theorem run_absolute_paths prog s d m n extras sigma :
  startswith_sep s = true ->
  startswith_sep d = true ->
  startswith_sep m = true ->
  run cwd (prog :: s :: d :: m :: n :: extras) sigma
  = run cwd' (prog :: s :: d :: m :: n :: extras) sigma.
Proof.
  intros Hs Hd Hm. rewrite !run_five. unfold makedirs.
  rewrite (makedirs_rec_absolute _ _ _ _ Hd).
  destruct (makedirs_rec cwd' (S (String.length d)) d true sigma)
    as [s1 [[]|e]]; [| done].
  apply exec_plan_absolute. unfold copy_plan. constructor.
  - split; [done | by apply join_absolute].
  - apply Forall_fmap, Forall_forall. intros f _. simpl.
    split; by apply join_absolute.
Qed.

End Absolute.

(** ** The claims on the example file system *)

Lemma pair_eta_snd {A B} (p : A * B) (b : B) : p.2 = b -> p = (p.1, b).
Proof. destruct p. simpl. by intros ->. Qed.

Lemma pair_eta {A B} (p : A * B) : p = (p.1, p.2).
Proof. by destruct p. Qed.



(** C5 as stated fails: [out] exists, its file [app] is named neither by
    [main_dest_name], which is [.], nor by an extra file, and the run
    replaces it. *)
Lemma C5_counterexample :
  is_dir home site_out "out" = true
  /\ site_out !! (home ++ ["out"; "app"]) = Some (File rw "old")
  /\ ("app" ∉ ["."])
  /\ (run home argv_dot site_out).2 = Ok tt
  /\ st_fs (run home argv_dot site_out).1 !! (home ++ ["out"; "app"])
     = Some (File rw "binary")
  /\ st_fs (run home argv_dot site_out).1 !! (home ++ ["out"; "app"])
     <> site_out !! (home ++ ["out"; "app"]).
Proof.
  split_and!; try (vm_compute; reflexivity).
  - intros [[=] | H%elem_of_nil]%elem_of_cons. done.
  - vm_compute. discriminate.
Qed.


(** Membership in a list given in full, case by case. *)
Lemma forall_elem_of {A} (P : A -> Prop) (l : list A) :
  Forall P l -> forall x, x ∈ l -> P x.
Proof. intros H x Hx. by eapply Forall_forall in H. Qed.

Ltac by_cases_on_list :=
  apply forall_elem_of; repeat constructor.

(** C7 on the example: four arguments, [out] created, [out/app] installed. *)
Lemma C7_witness :
  run home ["install_bindist.py"; "src"; "out"; "src/build/app"; "app"] site
  = (State
       (copy home "src/build/app" (posixpath.join "out" "app")
          (makedirs home "out" true site).1).1
       [EvMakedirs "out";
        EvCopy "src/build/app" (posixpath.join "out" "app")],
     Ok tt)
  /\ exit_status
       (run home ["install_bindist.py"; "src"; "out"; "src/build/app"; "app"]
          site).2 = 0%Z
  /\ exists ks ms data kd,
      resolve_existing home (makedirs home "out" true site).1 "src/build/app"
      = Found ks (File ms data)
      /\ open_target home (makedirs home "out" true site).1 "out/app" = inr kd
      /\ (copy home "src/build/app" (posixpath.join "out" "app")
            (makedirs home "out" true site).1).1 !! kd
         = Some (File ms data).
Proof.
  apply (C7_no_extra_files home "install_bindist.py" "src" "out"
           "src/build/app" "app" site).
  - apply pair_eta_snd. vm_compute. reflexivity.
  - apply pair_eta_snd. vm_compute. reflexivity.
Defined.

(** C8 on the example: [nowhere] does not exist, and the run succeeds. *)
Lemma C8_witness :
  resolve home site "nowhere" = Missing home rw "nowhere"
  /\ (run home ["install_bindist.py"; "nowhere"; "out"; "src/build/app"; "app"]
        site).2 = Ok tt.
Proof.
  split; [vm_compute; reflexivity |].
  apply (proj2 (C8_source_dir_unused home "install_bindist.py" "nowhere" "out"
                  "src/build/app" "app" site)
           (makedirs home "out" true site).1
           (copy home "src/build/app" (posixpath.join "out" "app")
              (makedirs home "out" true site).1).1
           "out/app").
  - apply pair_eta_snd. vm_compute. reflexivity.
  - apply pair_eta_snd. vm_compute. reflexivity.
Defined.












(** C3 on the invocation of the specification: the three copies, in the
    order of the command line, after [makedirs]. *)
Lemma C3_witness :
  st_trace (run home argv_install site).1
  = [EvMakedirs "out/"; EvCopy "src/build/app" "out/app";
     EvCopy "src/mainfile.txt" "out/mainfile.txt";
     EvCopy "src/README" "out/README"]
  /\ exists sigma1,
      makedirs home "out/" true site = (sigma1, Ok tt)
      /\ copy_all home
           (copy_plan "src/" "out/" "src/build/app" "app"
              ["mainfile.txt"; "README"]) sigma1
         = (st_fs (run home argv_install site).1, Ok tt).
Proof.
  apply (proj1 (proj2 (C3_copies_in_order home "install_bindist.py" "src/"
                         "out/" "src/build/app" "app"
                         ["mainfile.txt"; "README"] site
                         (run home argv_install site).1
                         (run home argv_install site).2 (pair_eta _)))).
  vm_compute. reflexivity.
Defined.


(** C5, amended, on the populated [out]: [out/keep] is untouched. *)
Lemma C5_witness :
  makedirs home "out" true site_out = (site_out, Ok tt)
  /\ st_fs (run home argv_update site_out).1 !! (home ++ ["out"; "keep"])
     = site_out !! (home ++ ["out"; "keep"]).
Proof.
  apply (C5_unrelated_untouched home "install_bindist.py" "src" "out"
           "src/build/app" "app" ["README"] site_out out_dir rw
           (run home argv_update site_out).1 (run home argv_update site_out).2).
  - vm_compute. reflexivity.
  - repeat constructor.
  - apply pair_eta.
  - by_cases_on_list; intros [l Hl]; vm_compute in Hl; discriminate.
Defined.

(** C10 on the example: [source_dir] is [dest_dir], [README] would be
    copied onto itself. *)
Lemma C10_witness :
  exit_status (run home argv_same site).2 = 1%Z
  /\ exists e,
      (run home argv_same site).2 = Raise e
      /\ (EvCopy "src/README" "src/README" ∈ st_trace (run home argv_same site).1 ->
          e = SameFileError "src/README" "src/README").
Proof.
  apply (C10_same_file_fails home "install_bindist.py" "src" "src"
           "src/build/app" "app2" ["README"] site).
  - right. exists "README". split; [| reflexivity].
    apply elem_of_cons. by left.
  - exists (home ++ ["src"; "README"]).
    split; exists rw, "readme"; vm_compute; reflexivity.
  - apply pair_eta.
Defined.

(** ** The further properties on the example file system *)

(** X2 on the example: the data of [out/app] after the run are those of a
    file of before. *)
Lemma run_copies_only_witness :
  st_fs (run home argv_install site).1 !! (home ++ ["out"; "app"])
  = Some (File rw "binary")
  /\ exists k0, site !! k0 = Some (File rw "binary").
Proof.
  assert (st_fs (run home argv_install site).1 !! (home ++ ["out"; "app"])
          = Some (File rw "binary")) as H.
  { vm_compute. reflexivity. }
  split; [exact H |].
  exact (run_copies_only home argv_install site _ _ _ H).
Defined.

(** X5 on the example: [notes] is a regular file. *)
Lemma run_dest_dir_is_file_witness :
  run home ["install_bindist.py"; "src"; "notes"; "src/build/app"; "app"] site
  = (State site [EvMakedirs "notes"], Raise (OSError EEXIST "notes")).
Proof.
  apply (run_dest_dir_is_file home "install_bindist.py" "src" "notes"
           ["src/build/app"; "app"] site (home ++ ["notes"]) rw "notes").
  vm_compute. reflexivity.
Defined.


(** X7 on the example: [src/build/none] does not exist; [out] is made. *)
Lemma run_main_source_missing_witness :
  run home ["install_bindist.py"; "src"; "out"; "src/build/none"; "app"] site
  = (State (makedirs home "out" true site).1
       [EvMakedirs "out"; EvCopy "src/build/none" (posixpath.join "out" "app")],
     Raise (OSError ENOENT "src/build/none")).
Proof.
  apply (run_main_source_missing home "install_bindist.py" "src" "out"
           "src/build/none" "app" [] site).
  - apply pair_eta_snd. vm_compute. reflexivity.
  - left. exists (home ++ ["src"; "build"]), rw, "none".
    vm_compute. reflexivity.
Defined.

(** X8 on the example: [src/LICENSE] is read-only and is not replaced. *)
Lemma run_destination_read_only_witness :
  run home ["install_bindist.py"; "src"; "src"; "src/build/app"; "LICENSE"]
    site
  = (State (makedirs home "src" true site).1
       [EvMakedirs "src";
        EvCopy "src/build/app" (posixpath.join "src" "LICENSE")],
     Raise (OSError EACCES (posixpath.join "src" "LICENSE"))).
Proof.
  apply (run_destination_read_only home "install_bindist.py" "src" "src"
           "src/build/app" "LICENSE" [] site (makedirs home "src" true site).1
           (home ++ ["src"; "build"; "app"]) rw "binary"
           (home ++ ["src"; "LICENSE"]) ro "license").
  - apply pair_eta_snd. vm_compute. reflexivity.
  - vm_compute. reflexivity.
  - reflexivity.
  - vm_compute. reflexivity.
  - reflexivity.
  - vm_compute. discriminate.
Defined.


(** X10 on the example: an empty extra file name. *)
Lemma run_source_not_a_file_name_witness :
  exit_status
    (run home ["install_bindist.py"; "src"; "out"; "src/build/app"; "app"; ""]
       site).2 = 1%Z.
Proof.
  apply (run_source_not_a_file_name home "install_bindist.py" "src" "out"
           "src/build/app" "app" [""] site).
  right. exists "". split; [| by left].
  apply elem_of_cons. by left.
Defined.

(** X11 on the example: [README] given by its absolute pathname. *)
Lemma run_absolute_extra_file_witness :
  posixpath.join "src" "/home/user/src/README" = "/home/user/src/README"
  /\ posixpath.join "out" "/home/user/src/README" = "/home/user/src/README"
  /\ exit_status
       (run home ["install_bindist.py"; "src"; "out"; "src/build/app"; "app";
                  "/home/user/src/README"] site).2 = 1%Z.
Proof.
  apply (run_absolute_extra_file home "install_bindist.py" "src" "out"
           "src/build/app" "app" ["/home/user/src/README"] site
           "/home/user/src/README").
  - apply elem_of_cons. by left.
  - reflexivity.
Defined.

(** X12 on the example: [src/] and [src]. *)
Lemma run_source_dir_sep_witness :
  run home ["install_bindist.py"; "src/"; "out"; "src/build/app"; "app";
            "README"] site
  = run home ["install_bindist.py"; "src"; "out"; "src/build/app"; "app";
              "README"] site.
Proof.
  apply (run_source_dir_sep home "install_bindist.py" "src"
           ["out"; "src/build/app"; "app"; "README"] site).
  - discriminate.
  - reflexivity.
Defined.


(** X14 on the example: the run from the working directory and from the
    root, all pathnames absolute. *)
Lemma run_absolute_paths_witness :
  run home ["install_bindist.py"; "/home/user/src"; "/home/user/out";
            "/home/user/src/build/app"; "app"; "README"] site
  = run [] ["install_bindist.py"; "/home/user/src"; "/home/user/out";
            "/home/user/src/build/app"; "app"; "README"] site.
Proof.
  apply (run_absolute_paths home [] "install_bindist.py" "/home/user/src"
           "/home/user/out" "/home/user/src/build/app" "app" ["README"] site);
    reflexivity.
Defined.
